(** * BtreeBasedAccessMethod: index maintenance and bulk build

    A shallow embedding of [src/mongo/db/index/btree_based_access_method.cpp].

    The access method sits between a stream of document mutations and a
    sorted key/record store.  Everything the file calls but does not
    define (the sorted-data interface, its bulk builder, the catalog
    entry, the operation context, key extraction, BSON comparison, the
    external sorter) is a field of the class [Collaborators]; the
    functions of the file itself are translated one by one on top of it,
    in a state-and-exception monad over the state those collaborators
    hold. *)

From Stdlib Require Import ZArith Lia Sorted.
From stdpp Require Import base list gmap sets strings sorting.

Local Open Scope Z_scope.

(** ** Error codes and [Status] *)

Module ErrorCodes.
(** The codes this file tests for, and a catch-all for every other
    failure a collaborator may report. *)
Inductive Error : Set :=
| OK
| InternalError
| KeyTooLong
| DuplicateKey
| DuplicateKeyValue
| OtherError (n : Z).

#[global] Instance Error_eq_dec : EqDecision Error.
Proof. solve_decision. Defined.
End ErrorCodes.

Record Status : Set := mkStatus {
  code : ErrorCodes.Error;
  reason : string
}.

Module StatusOps.
(** [Status::OK()] *)
Definition OK : Status := mkStatus ErrorCodes.OK "".
(** [status.isOK()] *)
Definition isOK (s : Status) : bool := bool_decide (code s = ErrorCodes.OK).
End StatusOps.

(** ** Key sets

    [BSONObjSet] is a [std::set<BSONObj, BSONObjCmp>]: the comparator
    carries an ordering object ([key_comp().order()]) and iteration
    yields the elements in the comparator's order.  [elems] is that
    iteration sequence. *)
Record BSONObjSet (K : Type) : Type := mkBSONObjSet {
  order : K;
  elems : list K
}.
Arguments mkBSONObjSet {K} _ _.
Arguments order {K} _.
Arguments elems {K} _.

(** [InsertDeleteOptions]: the one field this file reads. *)
Module InsertDeleteOptions.
Record t : Set := mk { dupsAllowed : bool }.
End InsertDeleteOptions.

(** ** Collaborators *)

Class Collaborators := {
  BSONObj : Type;
  RecordId : Type;
  RecordId_eq_dec :: EqDecision RecordId;
  RecordId_countable :: Countable RecordId;
  (** [RecordId()] and [RecordId::min()] *)
  RecordId_null : RecordId;
  RecordId_min : RecordId;
  (** [BSONObj()] and [operator==] on BSON objects *)
  BSONObj_empty : BSONObj;
  BSONObj_equal : BSONObj -> BSONObj -> bool;
  (** [l.woCompare(r, ordering, considerFieldName)] *)
  woCompare : BSONObj -> BSONObj -> BSONObj -> bool -> Z;
  (** the default value of [considerFieldName] in the declaration of
      [woCompare] (the default ordering is [BSONObj()]) *)
  considerFieldName_default : bool;
  (** [getKeys(obj, &keys)] of the subclass, on an empty [keys]: the
      keys in the iteration order of the set *)
  getKeys : BSONObj -> list BSONObj;
  (** The state of the sorted-data interface [_newInterface], including
      a bulk builder obtained from it. *)
  Store : Type;
  (** [_newInterface->insert(txn, key, loc, dupsAllowed)] *)
  sdi_insert : Store -> BSONObj -> RecordId -> bool -> Status * Store;
  (** [_newInterface->unindex(txn, key, loc, dupsAllowed)]; the boolean
      tells whether the call threw an [AssertionException] *)
  sdi_unindex : Store -> BSONObj -> RecordId -> bool -> Store * bool;
  (** [newCursor(txn, 1)] followed by [locate(key, loc)]: [None] when
      the cursor [isEOF()], else its [getKey()] and [getRecordId()] *)
  sdi_locate : Store -> BSONObj -> RecordId -> option (BSONObj * RecordId);
  (** [_newInterface->getBulkBuilder(txn, dupsAllowed)] *)
  sdi_getBulkBuilder : Store -> bool -> Store;
  (** [builder->addKey(key, loc)] *)
  builder_addKey : Store -> BSONObj -> RecordId -> Status * Store;
  (** [builder->commit(mayInterrupt)] *)
  builder_commit : Store -> bool -> Store;
  (** [_sorter->done()]: the pairs added so far, as the sorted iterator
      yields them *)
  sorter_done : list (BSONObj * RecordId) -> list (BSONObj * RecordId)
}.

(** ** The state the collaborators hold *)

(** Calls that reach the sorted-data interface, its builder or the
    catalog entry, in the order they are issued. *)
Inductive Call `{Collaborators} : Type :=
| CallInsert (key : BSONObj) (loc : RecordId) (dups : bool)
| CallUnindex (key : BSONObj) (loc : RecordId) (dups : bool)
| CallSetMultikey
| CallGetBulkBuilder (dups : bool)
| CallAddKey (key : BSONObj) (loc : RecordId)
| CallBuilderCommit (mayInterrupt : bool).

Record State `{Collaborators} : Type := mkState {
  store : Store;                (* behind [_newInterface] *)
  multikey : bool;              (* the catalog entry's multikey flag *)
  ready : bool;                 (* [_btreeState->isReady(txn)] *)
  primary : bool;               (* [txn->isPrimaryFor(_btreeState->ns())] *)
  failIndexKeyTooLong : bool;   (* the exported server parameter *)
  killPending : bool;           (* what [txn->checkForInterrupt()] tests *)
  history : list Call           (* ghost: the calls issued so far *)
}.
Arguments mkState {_} _ _ _ _ _ _ _.

(** ** State and exceptions *)

Inductive Exn : Set :=
| AssertionException      (* [verify] failing, or thrown by the store *)
| InterruptedException    (* thrown by [checkForInterrupt] *)
| InvariantFailure.       (* [invariant] failing: the process stops *)

Inductive Result `{Collaborators} (A : Type) : Type :=
| Normal (a : A) (s : State)
| Raised (e : Exn) (s : State).
Arguments Normal {_ A} _ _.
Arguments Raised {_ A} _ _.

Definition M `{Collaborators} (A : Type) : Type := State -> Result A.

Definition ret `{Collaborators} {A} (a : A) : M A := fun s => Normal a s.

Definition bind `{Collaborators} {A B} (m : M A) (f : A -> M B) : M B :=
  fun s => match m s with
           | Normal a s' => f a s'
           | Raised e s' => Raised e s'
           end.

Definition raise `{Collaborators} {A} (e : Exn) : M A := fun s => Raised e s.

Definition gets `{Collaborators} {A} (f : State -> A) : M A :=
  fun s => Normal (f s) s.

Definition modify `{Collaborators} (f : State -> State) : M unit :=
  fun s => Normal tt (f s).

Declare Scope am_scope.
Delimit Scope am_scope with am.
Notation "x <- m ;; k" := (bind m (fun x => k))
  (at level 100, m at next level, right associativity) : am_scope.
Notation "m ;;; k" := (bind m (fun _ => k))
  (at level 100, right associativity) : am_scope.
Local Open Scope am_scope.

(** The state a computation ends in, however it ends. *)
Definition final `{Collaborators} {A} (r : Result A) : State :=
  match r with Normal _ s => s | Raised _ s => s end.

(** What ends an iteration of a loop: [Next a] goes on to the next
    element with the loop's variables at [a], [Return r] leaves the
    function with [r]. *)
Inductive Flow (A R : Type) : Type :=
| Next (a : A)
| Return (r : R).
Arguments Next {A R} _.
Arguments Return {A R} _.

Section Primitives.
Context `{Collaborators}.

Definition with_store (s : State) (st : Store) (c : Call) : State :=
  mkState st (multikey s) (ready s) (primary s) (failIndexKeyTooLong s)
          (killPending s) (history s ++ [c]).

(** [_btreeState->setMultikey(txn)] *)
Definition setMultikey : M unit :=
  modify (fun s => mkState (store s) true (ready s) (primary s)
                           (failIndexKeyTooLong s) (killPending s)
                           (history s ++ [CallSetMultikey])).

Definition call_insert (key : BSONObj) (loc : RecordId) (dups : bool)
  : M Status :=
  fun s => let '(st, sto) := sdi_insert (store s) key loc dups in
           Normal st (with_store s sto (CallInsert key loc dups)).

(** An [AssertionException] leaves the store as the failed call left it. *)
Definition call_unindex (key : BSONObj) (loc : RecordId) (dups : bool)
  : M unit :=
  fun s => let '(sto, threw) := sdi_unindex (store s) key loc dups in
           let s' := with_store s sto (CallUnindex key loc dups) in
           if threw then Raised AssertionException s' else Normal tt s'.

(** [try { body } catch (AssertionException&) { handler }] *)
Definition try_catch_assertion {A} (body : M A) (handler : M A) : M A :=
  fun s => match body s with
           | Raised AssertionException s' => handler s'
           | r => r
           end.

(** [txn->checkForInterrupt()] *)
Definition checkForInterrupt : M unit :=
  fun s => if killPending s then Raised InterruptedException s
           else Normal tt s.

Definition call_getBulkBuilder (dups : bool) : M unit :=
  modify (fun s => with_store s (sdi_getBulkBuilder (store s) dups)
                              (CallGetBulkBuilder dups)).

Definition call_addKey (key : BSONObj) (loc : RecordId) : M Status :=
  fun s => let '(st, sto) := builder_addKey (store s) key loc in
           Normal st (with_store s sto (CallAddKey key loc)).

Definition call_builderCommit (mayInterrupt : bool) : M unit :=
  modify (fun s => with_store s (builder_commit (store s) mayInterrupt)
                              (CallBuilderCommit mayInterrupt)).

(** [if (c) { body }] *)
Definition when (c : bool) (body : M unit) : M unit :=
  if c then body else ret tt.
End Primitives.

(** ** The access method

    Counters ([int64_t], [long long]) are integers of [Z]: they count
    keys held in memory and stay far from the ends of their range.  The
    one unsigned computation, in [update], is written with its
    wrap-around.  Log lines and the progress meter are left out, and so
    are write conflicts: every unit of work is taken to commit at its
    first attempt. *)

Section AccessMethod.
Context `{Collaborators}.

Definition is_code (st : Status) (c : ErrorCodes.Error) : bool :=
  bool_decide (code st = c).

(** *** ignoreKeyTooLong *)
Definition ignoreKeyTooLong : M bool :=
  gets (fun s => negb (primary s) || negb (failIndexKeyTooLong s)).

(** *** removeOneKey: an assertion raised by [unindex] is caught,
    logged and dropped. *)
Definition removeOneKey (key : BSONObj) (loc : RecordId) (dups : bool)
  : M unit :=
  try_catch_assertion (call_unindex key loc dups) (ret tt).

(** *** insert *)

(** [for (j = keys.begin(); j != i; ++j) { removeOneKey(..); *numInserted = 0; }] *)
Fixpoint insert_cleanup (before : list BSONObj) (loc : RecordId)
    (dups : bool) (numInserted : Z) : M Z :=
  match before with
  | [] => ret numInserted
  | j :: js => removeOneKey j loc dups ;;; insert_cleanup js loc dups 0
  end.

(** One iteration of the loop over [keys], at the key [i], with the
    keys from [keys.begin()] up to [i] in [before]. *)
Definition insert_body (before : list BSONObj) (i : BSONObj)
    (loc : RecordId) (dups : bool) (numInserted : Z)
  : M (Flow Z (Status * Z)) :=
  status <- call_insert i loc dups ;;
  if StatusOps.isOK status then ret (Next (numInserted + 1))
  else
    tooLong <- (if is_code status ErrorCodes.KeyTooLong
                then ignoreKeyTooLong else ret false) ;;
    if tooLong then ret (Next numInserted)
    else
      building <- (if is_code status ErrorCodes.DuplicateKeyValue
                   then gets (fun s => negb (ready s)) else ret false) ;;
      if building then ret (Next numInserted)
      else
        n <- insert_cleanup before loc dups numInserted ;;
        ret (Return (status, n)).

Fixpoint insert_loop (before rest : list BSONObj) (loc : RecordId)
    (dups : bool) (numInserted : Z) : M (Flow Z (Status * Z)) :=
  match rest with
  | [] => ret (Next numInserted)
  | i :: rest' =>
      r <- insert_body before i loc dups numInserted ;;
      match r with
      | Next n => insert_loop (before ++ [i]) rest' loc dups n
      | Return x => ret (Return x)
      end
  end.

(** Returns the status and the value left in [*numInserted]. *)
Definition insert (obj : BSONObj) (loc : RecordId)
    (options : InsertDeleteOptions.t) : M (Status * Z) :=
  r <- insert_loop [] (getKeys obj) loc
                   (InsertDeleteOptions.dupsAllowed options) 0 ;;
  match r with
  | Return x => ret x
  | Next numInserted =>
      when (1 <? numInserted) setMultikey ;;;
      ret (StatusOps.OK, numInserted)
  end.

(** *** remove *)
Fixpoint remove_loop (keys : list BSONObj) (loc : RecordId) (dups : bool)
    (numDeleted : Z) : M Z :=
  match keys with
  | [] => ret numDeleted
  | i :: keys' =>
      removeOneKey i loc dups ;;; remove_loop keys' loc dups (numDeleted + 1)
  end.

Definition remove (obj : BSONObj) (loc : RecordId)
    (options : InsertDeleteOptions.t) : M (Status * Z) :=
  n <- remove_loop (getKeys obj) loc
                   (InsertDeleteOptions.dupsAllowed options) 0 ;;
  ret (StatusOps.OK, n).

(** *** setDifference *)

(** [l.woCompare(r)]: both optional arguments at their defaults. *)
Definition woCompare1 (l r : BSONObj) : Z :=
  woCompare l r BSONObj_empty considerFieldName_default.

(** The inner loop: [j] moves past the elements of [r] that compare
    below the current element [i] of [l]. *)
Fixpoint advance (i : BSONObj) (j : list BSONObj) : list BSONObj :=
  match j with
  | [] => []
  | y :: j' => if woCompare1 y i <? 0 then advance i j' else j
  end.

(** The walk, [i] and [j] being what is left of [l] and [r]. *)
Fixpoint setDifference_walk (i j diff : list BSONObj) : list BSONObj :=
  match i with
  | [] => diff
  | x :: i' =>
      let j' := advance x j in
      let absent := match j' with
                    | [] => true
                    | y :: _ => negb (woCompare1 x y =? 0)
                    end in
      setDifference_walk i' j' (if absent then diff ++ [x] else diff)
  end.

Definition setDifference (l r : BSONObjSet BSONObj) (diff : list BSONObj)
  : M (list BSONObj) :=
  if BSONObj_equal (order l) (order r)
  then ret (setDifference_walk (elems l) (elems r) diff)
  else raise AssertionException.

(** *** findSingle *)
Definition findSingle (key : BSONObj) : M RecordId :=
  cursor <- gets (fun s => sdi_locate (store s) key RecordId_min) ;;
  match cursor with
  | None => ret RecordId_null
  | Some (k, r) =>
      if negb (woCompare key k BSONObj_empty false =? 0)
      then ret RecordId_null
      else ret r
  end.
End AccessMethod.

(** ** Update tickets *)

(** [BtreeBasedPrivateUpdateData]; [removed] and [added] point into
    [oldKeys] and [newKeys] and are kept as the keys pointed to. *)
Record BtreeBasedPrivateUpdateData `{Collaborators} : Type := mkUpdateData {
  oldKeys : BSONObjSet BSONObj;
  newKeys : BSONObjSet BSONObj;
  removed : list BSONObj;
  added : list BSONObj;
  loc : RecordId;
  dupsAllowed : bool
}.
Arguments mkUpdateData {_} _ _ _ _ _ _.

(** [UpdateTicket]: a fresh ticket is [mkTicket false None]. *)
Record UpdateTicket `{Collaborators} : Type := mkTicket {
  _isValid : bool;
  _indexSpecificUpdateData : option BtreeBasedPrivateUpdateData
}.
Arguments mkTicket {_} _ _.

(** [BulkBuilder]: the sorter is kept as the pairs added to it. *)
Record BulkBuilder `{Collaborators} : Type := mkBulkBuilder {
  _sorter : list (BSONObj * RecordId);
  _isMultiKey : bool;
  _keysInserted : Z
}.
Arguments mkBulkBuilder {_} _ _ _.

Section UpdateAndBulk.
Context `{Collaborators}.

(** *** validateUpdate: the two key sets are members of the private
    data and are built with the default comparator. *)
Definition validateUpdate (from to : BSONObj) (record : RecordId)
    (options : InsertDeleteOptions.t) : M (Status * UpdateTicket) :=
  let old := mkBSONObjSet BSONObj_empty (getKeys from) in
  let new := mkBSONObjSet BSONObj_empty (getKeys to) in
  removed <- setDifference old new [] ;;
  added <- setDifference new old [] ;;
  ret (StatusOps.OK,
       mkTicket true
         (Some (mkUpdateData old new removed added record
                  (InsertDeleteOptions.dupsAllowed options)))).

(** *** update *)

(** Arithmetic of [size_t]. *)
Definition size_t (z : Z) : Z := z mod 2 ^ 64.

Definition size {A} (l : list A) : Z := Z.of_nat (length l).

(** The first loop calls [unindex] directly: what it throws leaves
    [update]. *)
Fixpoint update_unindex (keys : list BSONObj) (loc : RecordId)
    (dups : bool) : M unit :=
  match keys with
  | [] => ret tt
  | k :: keys' => call_unindex k loc dups ;;; update_unindex keys' loc dups
  end.

(** The second loop. *)
Fixpoint update_insert (keys : list BSONObj) (loc : RecordId)
    (dups : bool) : M (Flow unit Status) :=
  match keys with
  | [] => ret (Next tt)
  | k :: keys' =>
      status <- call_insert k loc dups ;;
      if negb (StatusOps.isOK status) then ret (Return status)
      else update_insert keys' loc dups
  end.

Definition multikey_test (data : BtreeBasedPrivateUpdateData) : bool :=
  1 <? size_t (size_t (size (elems (oldKeys data)) + size (added data))
               - size (removed data)).

(** [Status(ErrorCodes::InternalError, "Invalid UpdateTicket in update")] *)
Definition invalid_ticket_status : Status :=
  mkStatus ErrorCodes.InternalError "Invalid UpdateTicket in update".

(** The two loops of [update] and what follows them. *)
Definition update_apply (ticket : UpdateTicket)
    (data : BtreeBasedPrivateUpdateData) (numUpdated : Z)
  : M (Status * Z * UpdateTicket) :=
  update_unindex (removed data) (loc data) (dupsAllowed data) ;;;
  r <- update_insert (added data) (loc data) (dupsAllowed data) ;;
  match r with
  | Return status => ret (status, numUpdated, ticket)
  | Next _ => ret (StatusOps.OK, size (added data), ticket)
  end.

(** The ticket is a reference to a constant: the call cannot write to
    it.  The result gives the status, the value left in [*numUpdated]
    and the ticket as the call leaves it.  A valid ticket without data
    is not produced by [validateUpdate]; dereferencing it is undefined
    and stops the model. *)
Definition update (ticket : UpdateTicket) (numUpdated : Z)
  : M (Status * Z * UpdateTicket) :=
  if negb (_isValid ticket) then
    ret (invalid_ticket_status, numUpdated, ticket)
  else
    match _indexSpecificUpdateData ticket with
    | None => raise InvariantFailure
    | Some data =>
        when (multikey_test data) setMultikey ;;;
        update_apply ticket data numUpdated
    end.

(** *** BulkBuilder::insert *)

(** The loop over [keys]: each key goes to the sorter with [loc], and
    [_keysInserted] is incremented. *)
Fixpoint bulk_add (keys : list BSONObj) (loc : RecordId)
    (b : BulkBuilder) : BulkBuilder :=
  match keys with
  | [] => b
  | k :: keys' =>
      bulk_add keys' loc
        (mkBulkBuilder (_sorter b ++ [(k, loc)]) (_isMultiKey b)
                       (_keysInserted b + 1))
  end.

(** [numInserted] may be a null pointer: [None]. *)
Definition BulkBuilder_insert (b : BulkBuilder) (obj : BSONObj)
    (loc : RecordId) (options : InsertDeleteOptions.t)
    (numInserted : option Z) : M (Status * BulkBuilder * option Z) :=
  let keys := getKeys obj in
  let b1 := mkBulkBuilder (_sorter b) (_isMultiKey b || (1 <? size keys))
                          (_keysInserted b) in
  let b2 := bulk_add keys loc b1 in
  ret (StatusOps.OK, b2,
       match numInserted with
       | Some n => Some (n + size keys)
       | None => None
       end).

(** *** commitBulk *)

(** One iteration of the loop over the sorted stream, at the datum
    [d].  [dupsToDrop] is the caller's set, [None] for a null pointer;
    it is the one variable the loop carries. *)
Definition commitBulk_body (d : BSONObj * RecordId)
    (mayInterrupt dups : bool) (dupsToDrop : option (gset RecordId))
  : M (Flow (option (gset RecordId)) Status) :=
  when mayInterrupt checkForInterrupt ;;;
  status <- call_addKey (fst d) (snd d) ;;
  if negb (StatusOps.isOK status) then
    tooLong <- (if is_code status ErrorCodes.KeyTooLong
                then ignoreKeyTooLong else ret false) ;;
    if tooLong then ret (Next dupsToDrop)
    else if is_code status ErrorCodes.DuplicateKey then
      (if dups then raise InvariantFailure else ret tt) ;;;
      match dupsToDrop with
      | Some set => ret (Next (Some ({[snd d]} ∪ set)))
      | None => ret (Return status)
      end
    else ret (Return status)
  else ret (Next dupsToDrop).

Fixpoint commitBulk_loop (i : list (BSONObj * RecordId))
    (mayInterrupt dups : bool) (dupsToDrop : option (gset RecordId))
  : M (Flow (option (gset RecordId)) (Status * option (gset RecordId))) :=
  match i with
  | [] => ret (Next dupsToDrop)
  | d :: i' =>
      r <- commitBulk_body d mayInterrupt dups dupsToDrop ;;
      match r with
      | Next drop => commitBulk_loop i' mayInterrupt dups drop
      | Return status => ret (Return (status, dupsToDrop))
      end
  end.

(** Before the loop: the multikey flag and the builder, in one unit of
    work. *)
Definition commitBulk_begin (bulk : BulkBuilder) (dups : bool) : M unit :=
  when (_isMultiKey bulk) setMultikey ;;;
  call_getBulkBuilder dups.

(** After the loop. *)
Definition commitBulk_end (mayInterrupt : bool)
    (r : Flow (option (gset RecordId)) (Status * option (gset RecordId)))
  : M (Status * option (gset RecordId)) :=
  match r with
  | Return x => ret x
  | Next drop =>
      call_builderCommit mayInterrupt ;;; ret (StatusOps.OK, drop)
  end.

(** Returns the status and the caller's set as the call leaves it. *)
Definition commitBulk (bulk : BulkBuilder) (mayInterrupt dups : bool)
    (dupsToDrop : option (gset RecordId))
  : M (Status * option (gset RecordId)) :=
  commitBulk_begin bulk dups ;;;
  r <- commitBulk_loop (sorter_done (_sorter bulk)) mayInterrupt dups
                       dupsToDrop ;;
  commitBulk_end mayInterrupt r.
End UpdateAndBulk.

(** ** The comparison handed to the external sorter *)

(** What [BtreeExternalSortComparison] calls and this file does not
    define: [Ordering] with [Ordering::make], the [woCompare] that takes
    an [Ordering], [oldCompare] of the version 0 key format, and
    [RecordId::compare]. *)
Class SortCollaborators `{Collaborators} := {
  Ordering : Type;
  Ordering_make : BSONObj -> Ordering;
  woCompare_ordering : BSONObj -> BSONObj -> Ordering -> bool -> Z;
  oldCompare : BSONObj -> BSONObj -> Ordering -> Z;
  RecordId_compare : RecordId -> RecordId -> Z
}.

Record BtreeExternalSortComparison `{SortCollaborators} : Type := mkComparison {
  _ordering : Ordering;
  _version : Z
}.
Arguments mkComparison {_ _} _ _.

Section SortComparison.
Context `{SortCollaborators}.

(** The constructor; [None] when its [invariant] fails. *)
Definition BtreeExternalSortComparison_new (ordering : BSONObj) (version : Z)
  : option BtreeExternalSortComparison :=
  if (version =? 1) || (version =? 0)
  then Some (mkComparison (Ordering_make ordering) version)
  else None.

(** The comparison of the keys alone, by the version of the index. *)
Definition compare_keys (c : BtreeExternalSortComparison) (l r : BSONObj) : Z :=
  if _version c =? 1
  then woCompare_ordering l r (_ordering c) false
  else oldCompare l r (_ordering c).

(** [operator()] *)
Definition BtreeExternalSortComparison_call (c : BtreeExternalSortComparison)
    (l r : BSONObj * RecordId) : Z :=
  let x := compare_keys c (fst l) (fst r) in
  if negb (x =? 0) then x else RecordId_compare (snd l) (snd r).
End SortComparison.

(** ** Sequences of calls *)

Inductive Op `{Collaborators} : Type :=
| OpInsert (obj : BSONObj) (loc : RecordId) (options : InsertDeleteOptions.t)
| OpRemove (obj : BSONObj) (loc : RecordId) (options : InsertDeleteOptions.t)
| OpValidateUpdate (from to : BSONObj) (record : RecordId)
    (options : InsertDeleteOptions.t)
| OpUpdate (ticket : UpdateTicket) (numUpdated : Z)
| OpFindSingle (key : BSONObj)
| OpBulkInsert (b : BulkBuilder) (obj : BSONObj) (loc : RecordId)
    (options : InsertDeleteOptions.t) (numInserted : option Z)
| OpCommitBulk (bulk : BulkBuilder) (mayInterrupt dups : bool)
    (dupsToDrop : option (gset RecordId)).

Section Sequences.
Context `{Collaborators}.

(** The state one call leaves, whether it returns or throws. *)
Definition run_op (op : Op) (s : State) : State :=
  match op with
  | OpInsert obj loc options => final (insert obj loc options s)
  | OpRemove obj loc options => final (remove obj loc options s)
  | OpValidateUpdate from to record options =>
      final (validateUpdate from to record options s)
  | OpUpdate ticket numUpdated => final (update ticket numUpdated s)
  | OpFindSingle key => final (findSingle key s)
  | OpBulkInsert b obj loc options numInserted =>
      final (BulkBuilder_insert b obj loc options numInserted s)
  | OpCommitBulk bulk mayInterrupt dups dupsToDrop =>
      final (commitBulk bulk mayInterrupt dups dupsToDrop s)
  end.

Definition run_ops (ops : list Op) (s : State) : State :=
  fold_left (fun s op => run_op op s) ops s.
End Sequences.

(** ** What the access method expects of its collaborators *)

(** The comparison [setDifference] walks with is a three-way comparison
    of a total preorder, and an ordering object equals itself. *)
Class ComparisonContract `{Collaborators} : Prop := {
  woCompare1_sgn : forall x y, Z.sgn (woCompare1 y x) = - Z.sgn (woCompare1 x y);
  woCompare1_trans : forall x y z,
    woCompare1 x y <= 0 -> woCompare1 y z <= 0 -> woCompare1 x z <= 0;
  BSONObj_equal_refl : forall x, BSONObj_equal x x = true
}.

(** A store that holds (key, record) entries: [unindex] takes the entry
    out without raising and adds none, [insert] adds at most the entry
    it is given, a cursor stands on an entry of the store. *)
Class StoreContract `{Collaborators} : Type := {
  contains : Store -> BSONObj -> RecordId -> Prop;
  unindex_removes : forall st k l d,
    snd (sdi_unindex st k l d) = false /\
    ~ contains (fst (sdi_unindex st k l d)) k l;
  unindex_shrinks : forall st k l d k' l',
    contains (fst (sdi_unindex st k l d)) k' l' -> contains st k' l';
  locate_contains : forall st k l k' l',
    sdi_locate st k l = Some (k', l') -> contains st k' l';
  insert_adds_one : forall st k l d k' l',
    contains (snd (sdi_insert st k l d)) k' l' ->
    contains st k' l' \/ (k' = k /\ l' = l)
}.

(** The part of that contract [removeOneKey] can rely on, for a store
    whose [unindex] may throw: a call that returns has taken the entry
    out, and no call, thrown or not, adds an entry. *)
Class UnindexContract `{Collaborators} : Type := {
  holds : Store -> BSONObj -> RecordId -> Prop;
  unindex_takes_out : forall st k l d,
    snd (sdi_unindex st k l d) = false ->
    ~ holds (fst (sdi_unindex st k l d)) k l;
  unindex_adds_none : forall st k l d k' l',
    holds (fst (sdi_unindex st k l d)) k' l' -> holds st k' l'
}.

(** Order-equality of keys, and membership of a key in a sequence up to
    it. *)
Definition order_equal `{Collaborators} (x y : BSONObj) : bool :=
  woCompare1 x y =? 0.

Definition member `{Collaborators} (x : BSONObj) (l : list BSONObj) : bool :=
  existsb (order_equal x) l.

(** The iteration sequence of a set under the comparison. *)
Definition ordered `{Collaborators} (l : list BSONObj) : Prop :=
  StronglySorted (fun x y => woCompare1 x y < 0) l.

(** ** Vocabulary of the statements *)

(** *** Relations between the state before and after a call

    [R] relates the state before a computation to the state after it,
    however the computation ends.  A relation is respected when it is a
    preorder that holds across every call to the store and its builder;
    [setMultikey] is left to each relation. *)
Class Respected `{Collaborators} (R : State -> State -> Prop) : Prop := {
  R_refl : forall s, R s s;
  R_trans : forall a b c, R a b -> R b c -> R a c;
  R_store : forall s sto c, R s (with_store s sto c)
}.

Definition respects `{Collaborators} (R : State -> State -> Prop) {A}
    (m : M A) : Prop :=
  forall s, R s (final (m s)).

Section Vocabulary.
Context `{Collaborators}.

(** Once set, still set. *)
Definition stays_set (s s' : State) : Prop :=
  multikey s = true -> multikey s' = true.

(** The calls issued so far are still there, others may follow. *)
Definition extends (s s' : State) : Prop :=
  exists calls, history s' = history s ++ calls.

(** The state after [unindex] has been called on each key in turn. *)
Definition unindexed (keys : list BSONObj) (l : RecordId) (d : bool)
    (s : State) : State :=
  fold_left
    (fun s k => with_store s (fst (sdi_unindex (store s) k l d))
                           (CallUnindex k l d))
    keys s.

(** The state after [insert] has been called on each key in turn. *)
Definition inserted (keys : list BSONObj) (l : RecordId) (d : bool)
    (s : State) : State :=
  fold_left
    (fun s k => with_store s (snd (sdi_insert (store s) k l d))
                           (CallInsert k l d))
    keys s.

(** The failures [insert] passes over: an oversized key that
    [ignoreKeyTooLong] accepts, and a key already in the index while
    the index is being built. *)
Definition tolerated (st : Status) (s : State) : bool :=
  (is_code st ErrorCodes.KeyTooLong
   && (negb (primary s) || negb (failIndexKeyTooLong s)))
  || (is_code st ErrorCodes.DuplicateKeyValue && negb (ready s)).

(** The state in which the loops of [update] start. *)
Definition update_start (data : BtreeBasedPrivateUpdateData) (s : State)
  : State :=
  final (when (multikey_test data) setMultikey s).
End Vocabulary.

(** *** Runs of store calls, continued *)

(** A three-way comparison of a total preorder. *)
Record three_way {A : Type} (c : A -> A -> Z) : Prop := mkThreeWay {
  three_way_sgn : forall x y, Z.sgn (c y x) = - Z.sgn (c x y);
  three_way_trans : forall x y z, c x y <= 0 -> c y z <= 0 -> c x z <= 0
}.

Section MoreVocabulary.
Context `{Collaborators}.

(** The state after [addKey] has been called on each datum in turn. *)
Definition added_keys (stream : list (BSONObj * RecordId)) (s : State) : State :=
  fold_left
    (fun s d => with_store s (snd (builder_addKey (store s) (fst d) (snd d)))
                           (CallAddKey (fst d) (snd d)))
    stream s.

(** Every [insert] of the run returns OK. *)
Fixpoint all_inserted (keys : list BSONObj) (l : RecordId) (d : bool)
    (s : State) : bool :=
  match keys with
  | [] => true
  | k :: keys' =>
      StatusOps.isOK (fst (sdi_insert (store s) k l d))
      && all_inserted keys' l d (inserted [k] l d s)
  end.

(** Every [insert] of the run returns OK or a failure [insert] passes
    over. *)
Fixpoint all_pass (keys : list BSONObj) (l : RecordId) (d : bool)
    (s : State) : bool :=
  match keys with
  | [] => true
  | k :: keys' =>
      (StatusOps.isOK (fst (sdi_insert (store s) k l d))
       || tolerated (fst (sdi_insert (store s) k l d)) s)
      && all_pass keys' l d (inserted [k] l d s)
  end.

(** How many [insert]s of the run return OK. *)
Fixpoint inserted_count (keys : list BSONObj) (l : RecordId) (d : bool)
    (s : State) : Z :=
  match keys with
  | [] => 0
  | k :: keys' =>
      (if StatusOps.isOK (fst (sdi_insert (store s) k l d)) then 1 else 0)
      + inserted_count keys' l d (inserted [k] l d s)
  end.

(** No [unindex] of the run throws. *)
Fixpoint none_thrown (keys : list BSONObj) (l : RecordId) (d : bool)
    (s : State) : bool :=
  match keys with
  | [] => true
  | k :: keys' =>
      negb (snd (sdi_unindex (store s) k l d))
      && none_thrown keys' l d (unindexed [k] l d s)
  end.

(** Every [addKey] of the run returns OK. *)
Fixpoint all_added (stream : list (BSONObj * RecordId)) (s : State) : bool :=
  match stream with
  | [] => true
  | d :: stream' =>
      StatusOps.isOK (fst (builder_addKey (store s) (fst d) (snd d)))
      && all_added stream' (added_keys [d] s)
  end.

(** A scan: [BulkBuilder::insert] called on each document in turn, the
    builder of one call handed to the next, with a null [numInserted]. *)
Fixpoint accumulate (docs : list (BSONObj * RecordId))
    (options : InsertDeleteOptions.t) (b : BulkBuilder) : M BulkBuilder :=
  match docs with
  | [] => ret b
  | doc :: docs' =>
      r <- BulkBuilder_insert b (fst doc) (snd doc) options None ;;
      accumulate docs' options (snd (fst r))
  end.

(** The (key, record) pairs of a scan, in the order they reach the
    sorter. *)
Definition pairs_of (docs : list (BSONObj * RecordId))
  : list (BSONObj * RecordId) :=
  flat_map (fun doc => map (fun k => (k, snd doc)) (getKeys (fst doc))) docs.

(** The state with the multikey flag set by [setMultikey]. *)
Definition flagged (s : State) : State :=
  mkState (store s) true (ready s) (primary s) (failIndexKeyTooLong s)
          (killPending s) (history s ++ [CallSetMultikey]).
End MoreVocabulary.

(** ** A concrete store, to run the access method on

    Keys and documents are sequences of integers: a document is the
    values of the indexed field, each value gives the key holding it.
    The store keeps its entries in (key, record) order; a key is too
    long when a value exceeds [KeyMax]. *)
Module Concrete.
Definition Obj : Type := list Z.
Definition Entry : Type := (Obj * Z)%type.

Definition sign (c : comparison) : Z :=
  match c with Lt => -1 | Eq => 0 | Gt => 1 end.

Fixpoint compareObj (l r : Obj) : Z :=
  match l, r with
  | [], [] => 0
  | [], _ :: _ => -1
  | _ :: _, [] => 1
  | a :: l', b :: r' =>
      let x := sign (a ?= b) in
      if negb (x =? 0) then x else compareObj l' r'
  end.

Definition compareEntry (a b : Entry) : Z :=
  let x := compareObj (fst a) (fst b) in
  if negb (x =? 0) then x else sign (snd a ?= snd b).

Definition KeyMax : Z := 1024.

Definition tooLong (k : Obj) : bool := existsb (fun v => KeyMax <? v) k.

Record Btree : Type := mkBtree {
  entries : list Entry;
  building : list Entry;
  buildingDups : bool
}.

Fixpoint place (e : Entry) (l : list Entry) : list Entry :=
  match l with
  | [] => [e]
  | x :: l' => if compareEntry e x <? 0 then e :: l else x :: place e l'
  end.

Definition status (c : ErrorCodes.Error) : Status := mkStatus c "".

Definition bt_insert (t : Btree) (k : Obj) (l : Z) (dups : bool)
  : Status * Btree :=
  if tooLong k then (status ErrorCodes.KeyTooLong, t)
  else if existsb (fun e => compareEntry e (k, l) =? 0) (entries t)
  then (status ErrorCodes.DuplicateKeyValue, t)
  else if negb dups && existsb (fun e => compareObj (fst e) k =? 0) (entries t)
  then (status ErrorCodes.DuplicateKey, t)
  else (StatusOps.OK,
        mkBtree (place (k, l) (entries t)) (building t) (buildingDups t)).

Definition bt_unindex (t : Btree) (k : Obj) (l : Z) (dups : bool)
  : Btree * bool :=
  (mkBtree (filter (fun e => e ≠ (k, l)) (entries t)) (building t)
           (buildingDups t), false).

Definition bt_locate (t : Btree) (k : Obj) (l : Z) : option Entry :=
  List.find (fun e => 0 <=? compareEntry e (k, l)) (entries t).

Definition bt_getBulkBuilder (t : Btree) (dups : bool) : Btree :=
  mkBtree (entries t) [] dups.

Definition bt_addKey (t : Btree) (k : Obj) (l : Z) : Status * Btree :=
  if tooLong k then (status ErrorCodes.KeyTooLong, t)
  else if negb (buildingDups t) &&
          match last (building t) with
          | Some e => compareObj (fst e) k =? 0
          | None => false
          end
  then (status ErrorCodes.DuplicateKey, t)
  else (StatusOps.OK,
        mkBtree (entries t) (building t ++ [(k, l)]) (buildingDups t)).

Definition bt_commit (t : Btree) (mayInterrupt : bool) : Btree :=
  mkBtree (building t) [] (buildingDups t).

Definition sort (l : list Entry) : list Entry := fold_right place [] l.

Fixpoint placeKey (k : Obj) (l : list Obj) : list Obj :=
  match l with
  | [] => [k]
  | x :: l' =>
      if compareObj k x <? 0 then k :: l
      else if compareObj k x =? 0 then l
      else x :: placeKey k l'
  end.

Definition keysOf (doc : Obj) : list Obj :=
  fold_right placeKey [] (map (fun v => [v]) doc).

Definition collaborators : Collaborators := {|
  BSONObj := Obj;
  RecordId := Z;
  RecordId_null := 0;
  RecordId_min := - 2 ^ 63;
  BSONObj_empty := [];
  BSONObj_equal := fun a b => bool_decide (a = b);
  woCompare := fun l r _ _ => compareObj l r;
  considerFieldName_default := true;
  getKeys := keysOf;
  Store := Btree;
  sdi_insert := bt_insert;
  sdi_unindex := bt_unindex;
  sdi_locate := bt_locate;
  sdi_getBulkBuilder := bt_getBulkBuilder;
  builder_addKey := bt_addKey;
  builder_commit := bt_commit;
  sorter_done := sort
|}.

(** An empty, ready index on a primary with the default server
    parameter. *)
Definition init : @State collaborators :=
  @mkState collaborators (mkBtree [] [] false) false true true true false [].

Definition options (dups : bool) : InsertDeleteOptions.t :=
  InsertDeleteOptions.mk dups.

(** The same index holding the given entries; [isPrimary] tells
    whether the process is the primary for the collection. *)
Definition holding (es : list Entry) (isPrimary : bool)
  : @State collaborators :=
  @mkState collaborators (mkBtree es [] false) false true isPrimary true
           false [].

(** The ticket [validateUpdate] plans for record [l] of a unique index. *)
Definition planned (from to : Obj) (l : Z) : @UpdateTicket collaborators :=
  match @validateUpdate collaborators from to l (options false) init with
  | Normal (_, t) _ => t
  | Raised _ _ => @mkTicket collaborators false None
  end.

(** The private data of such a ticket, spelled out. *)
Definition delta (old new rmv adds : list Obj) (l : Z)
  : @BtreeBasedPrivateUpdateData collaborators :=
  @mkUpdateData collaborators (mkBSONObjSet [] old) (mkBSONObjSet [] new)
                rmv adds l false.

(** A bulk builder that has accumulated the given pairs. *)
Definition accumulated (pairs : list Entry) (multi : bool)
  : @BulkBuilder collaborators :=
  @mkBulkBuilder collaborators pairs multi (Z.of_nat (length pairs)).

(** The same index with an interruption pending. *)
Definition interrupted : @State collaborators :=
  @mkState collaborators (mkBtree [] [] false) false true true true true [].

(** A store that has gone wrong: [unindex] asserts on an entry it does
    not hold, and the builder reports duplicates whatever it was
    asked. *)
Definition bt_unindex_asserting (t : Btree) (k : Obj) (l : Z) (dups : bool)
  : Btree * bool :=
  if existsb (fun e => bool_decide (e = (k, l))) (entries t)
  then bt_unindex t k l dups
  else (t, true).

Definition bt_addKey_strict (t : Btree) (k : Obj) (l : Z) : Status * Btree :=
  if tooLong k then (status ErrorCodes.KeyTooLong, t)
  else if match last (building t) with
          | Some e => compareObj (fst e) k =? 0
          | None => false
          end
  then (status ErrorCodes.DuplicateKey, t)
  else (StatusOps.OK,
        mkBtree (entries t) (building t ++ [(k, l)]) (buildingDups t)).

Definition faulty : Collaborators := {|
  BSONObj := Obj;
  RecordId := Z;
  RecordId_null := 0;
  RecordId_min := - 2 ^ 63;
  BSONObj_empty := [];
  BSONObj_equal := fun a b => bool_decide (a = b);
  woCompare := fun l r _ _ => compareObj l r;
  considerFieldName_default := true;
  getKeys := keysOf;
  Store := Btree;
  sdi_insert := bt_insert;
  sdi_unindex := bt_unindex_asserting;
  sdi_locate := bt_locate;
  sdi_getBulkBuilder := bt_getBulkBuilder;
  builder_addKey := bt_addKey_strict;
  builder_commit := bt_commit;
  sorter_done := sort
|}.

(** A store that has seized up: every [unindex] asserts and takes
    nothing out. *)
Definition seized : Collaborators := {|
  BSONObj := Obj;
  RecordId := Z;
  RecordId_null := 0;
  RecordId_min := - 2 ^ 63;
  BSONObj_empty := [];
  BSONObj_equal := fun a b => bool_decide (a = b);
  woCompare := fun l r _ _ => compareObj l r;
  considerFieldName_default := true;
  getKeys := keysOf;
  Store := Btree;
  sdi_insert := bt_insert;
  sdi_unindex := fun t _ _ _ => (t, true);
  sdi_locate := bt_locate;
  sdi_getBulkBuilder := bt_getBulkBuilder;
  builder_addKey := bt_addKey;
  builder_commit := bt_commit;
  sorter_done := sort
|}.

Definition seized_init : @State seized :=
  @mkState seized (mkBtree [] [] false) false true true true false [].

(** The asserting store holding the given entries. *)
Definition faulty_holding (es : list Entry) : @State faulty :=
  @mkState faulty (mkBtree es [] false) false true true true false [].

Definition faulty_init : @State faulty :=
  @mkState faulty (mkBtree [] [] false) false true true true false [].

(** The sorter's collaborators: one key format, ascending. *)
Definition sort_collaborators : @SortCollaborators collaborators :=
  @Build_SortCollaborators collaborators Obj
    (fun o => o)
    (fun l r _ _ => compareObj l r)
    (fun l r _ => compareObj l r)
    (fun a b => sign (a ?= b)).
End Concrete.

(** * Properties *)

(** ** The monad *)

Section MonadFacts.
Context `{Collaborators}.

Lemma bind_Normal {A B} (m : M A) (f : A -> M B) s a s' :
  m s = Normal a s' -> bind m f s = f a s'.
Proof. unfold bind. by intros ->. Qed.

Lemma bind_Raised {A B} (m : M A) (f : A -> M B) s e s' :
  m s = Raised e s' -> bind m f s = Raised e s'.
Proof. unfold bind. by intros ->. Qed.

Lemma bind_ret {A B} (a : A) (f : A -> M B) s : bind (ret a) f s = f a s.
Proof. done. Qed.

Lemma bind_gets {A B} (g : State -> A) (f : A -> M B) s :
  bind (gets g) f s = f (g s) s.
Proof. done. Qed.

Lemma call_insert_eq key loc dups s :
  call_insert key loc dups s =
    Normal (fst (sdi_insert (store s) key loc dups))
           (with_store s (snd (sdi_insert (store s) key loc dups))
                       (CallInsert key loc dups)).
Proof. unfold call_insert. by destruct sdi_insert. Qed.

Lemma call_addKey_eq key loc s :
  call_addKey key loc s =
    Normal (fst (builder_addKey (store s) key loc))
           (with_store s (snd (builder_addKey (store s) key loc))
                       (CallAddKey key loc)).
Proof. unfold call_addKey. by destruct builder_addKey. Qed.

(** [removeOneKey] returns whatever [unindex] does. *)
Lemma removeOneKey_eq key loc dups s :
  removeOneKey key loc dups s =
    Normal tt (with_store s (fst (sdi_unindex (store s) key loc dups))
                          (CallUnindex key loc dups)).
Proof.
  unfold removeOneKey, try_catch_assertion, call_unindex.
  by destruct sdi_unindex as [sto []].
Qed.
End MonadFacts.

(** ** Bulk accumulation *)

Section BulkAccumulation.
Context `{Collaborators}.

Lemma bulk_add_eq keys loc b :
  bulk_add keys loc b =
    mkBulkBuilder (_sorter b ++ map (fun k => (k, loc)) keys)
                  (_isMultiKey b) (_keysInserted b + size keys).
Proof.
  revert b. induction keys as [|k keys IH]; intros b; simpl.
  - destruct b; simpl. unfold size; simpl. by rewrite app_nil_r, Z.add_0_r.
  - rewrite IH; simpl. f_equal.
    + by rewrite <- app_assoc.
    + unfold size; simpl length. lia.
Qed.

End BulkAccumulation.

(** ** The concrete store honours the store contract *)

Module ConcreteFacts.
Import Concrete.

Lemma elem_of_place (e x : Entry) (l : list Entry) :
  x ∈ place e l -> x = e \/ x ∈ l.
Proof.
  induction l as [|y l IH]; simpl.
  - intros Hx. apply list_elem_of_singleton in Hx. by left.
  - destruct (compareEntry e y <? 0).
    + intros Hx. apply elem_of_cons in Hx. tauto.
    + intros Hx. apply elem_of_cons in Hx. destruct Hx as [->|Hx].
      * right. apply elem_of_cons. by left.
      * destruct (IH Hx) as [->|Hin]; [by left|].
        right. apply elem_of_cons. by right.
Qed.

Lemma bt_unindex_removes (t : Btree) (k : Obj) (l : Z) (d : bool) :
  snd (bt_unindex t k l d) = false /\
  ~ (k, l) ∈ entries (fst (bt_unindex t k l d)).
Proof.
  split; [done|]. simpl. intros Hin.
  apply list_elem_of_filter in Hin. by destruct Hin.
Qed.

Lemma bt_unindex_shrinks (t : Btree) (k : Obj) (l : Z) (d : bool)
    (k' : Obj) (l' : Z) :
  (k', l') ∈ entries (fst (bt_unindex t k l d)) -> (k', l') ∈ entries t.
Proof. simpl. intros Hin. apply list_elem_of_filter in Hin. tauto. Qed.

Lemma bt_locate_contains (t : Btree) (k : Obj) (l : Z) (k' : Obj) (l' : Z) :
  bt_locate t k l = Some (k', l') -> (k', l') ∈ entries t.
Proof.
  unfold bt_locate. intros Hfind. apply find_some in Hfind.
  apply list_elem_of_In. tauto.
Qed.

Lemma bt_insert_adds_one (t : Btree) (k : Obj) (l : Z) (d : bool)
    (k' : Obj) (l' : Z) :
  (k', l') ∈ entries (snd (bt_insert t k l d)) ->
  (k', l') ∈ entries t \/ (k' = k /\ l' = l).
Proof.
  unfold bt_insert.
  destruct (tooLong k); [by left|].
  destruct (existsb _ _); [by left|].
  destruct (negb d && _); [by left|]. simpl.
  intros Hin. apply elem_of_place in Hin.
  destruct Hin as [Heq|Hin]; [right; by inversion Heq | by left].
Qed.

Lemma compareObj_sgn (x y : Obj) :
  Z.sgn (compareObj y x) = - Z.sgn (compareObj x y).
Proof.
  revert y. induction x as [|a x IH]; intros [|b y]; simpl; try done.
  rewrite (Z.compare_antisym a b). destruct (a ?= b); simpl; auto.
Qed.

Lemma compareObj_trans (x y z : Obj) :
  compareObj x y <= 0 -> compareObj y z <= 0 -> compareObj x z <= 0.
Proof.
  revert y z. induction x as [|a x IH]; intros [|b y] [|c z]; simpl;
    try done; try lia.
  destruct (Z.compare_spec a b), (Z.compare_spec b c), (Z.compare_spec a c);
    simpl; try lia; eauto.
Qed.

Lemma compareObj_three_way : three_way compareObj.
Proof. split; [apply compareObj_sgn | apply compareObj_trans]. Qed.

Lemma compareZ_three_way : three_way (fun a b : Z => sign (a ?= b)).
Proof.
  split.
  - intros x y. rewrite (Z.compare_antisym x y). by destruct (x ?= y).
  - intros x y z.
    destruct (Z.compare_spec x y), (Z.compare_spec y z), (Z.compare_spec x z);
      simpl; lia.
Qed.

Lemma comparison_contract : @ComparisonContract collaborators.
Proof.
  split.
  - intros x y. apply compareObj_sgn.
  - intros x y z. apply compareObj_trans.
  - intros x. by apply bool_decide_eq_true_2.
Qed.

Lemma bt_unindex_asserting_takes_out (t : Btree) (k : Obj) (l : Z) (d : bool) :
  snd (bt_unindex_asserting t k l d) = false ->
  ~ (k, l) ∈ entries (fst (bt_unindex_asserting t k l d)).
Proof.
  unfold bt_unindex_asserting. destruct (existsb _ _); [|done].
  intros _. apply bt_unindex_removes.
Qed.

Lemma bt_unindex_asserting_adds_none (t : Btree) (k : Obj) (l : Z) (d : bool)
    (k' : Obj) (l' : Z) :
  (k', l') ∈ entries (fst (bt_unindex_asserting t k l d)) ->
  (k', l') ∈ entries t.
Proof.
  unfold bt_unindex_asserting. destruct (existsb _ _); [|done].
  apply bt_unindex_shrinks.
Qed.

Definition unindex_contract : @UnindexContract collaborators := {|
  holds := fun (t : @Store collaborators) k l => (k, l) ∈ entries t;
  unindex_takes_out := fun t k l d _ => proj2 (bt_unindex_removes t k l d);
  unindex_adds_none := bt_unindex_shrinks
|}.

Definition faulty_unindex_contract : @UnindexContract faulty := {|
  holds := fun (t : @Store faulty) k l => (k, l) ∈ entries t;
  unindex_takes_out := bt_unindex_asserting_takes_out;
  unindex_adds_none := bt_unindex_asserting_adds_none
|}.

Definition store_contract : @StoreContract collaborators := {|
  contains := fun (t : @Store collaborators) k l => (k, l) ∈ entries t;
  unindex_removes := bt_unindex_removes;
  unindex_shrinks := bt_unindex_shrinks;
  locate_contains := bt_locate_contains;
  insert_adds_one := bt_insert_adds_one
|}.
End ConcreteFacts.

(** ** Point lookup *)

Section FindSingle.
Context `{Collaborators} {SC : StoreContract}.

(** C6.  [findSingle] returns without touching the state.  The record
    it returns is the null record when the forward cursor located at
    ([key], [RecordId::min()]) is at its end or stands on an entry whose
    key does not compare equal to [key] with field names ignored, and
    is the record of the located entry when that key compares equal.
    Hence a record other than the null one is the record of a stored
    entry whose key is order-equal to [key], and on a store without
    entries the answer is the null record. *)
Theorem findSingle_exact (key : BSONObj) (s : State) :
  exists r : RecordId,
    findSingle key s = Normal r s /\
    (sdi_locate (store s) key RecordId_min = None -> r = RecordId_null) /\
    (forall k l, sdi_locate (store s) key RecordId_min = Some (k, l) ->
                 woCompare key k BSONObj_empty false <> 0 ->
                 r = RecordId_null) /\
    (forall k l, sdi_locate (store s) key RecordId_min = Some (k, l) ->
                 woCompare key k BSONObj_empty false = 0 -> r = l) /\
    (r <> RecordId_null ->
     exists k, sdi_locate (store s) key RecordId_min = Some (k, r) /\
               woCompare key k BSONObj_empty false = 0 /\
               contains (store s) k r) /\
    ((forall k l, ~ contains (store s) k l) -> r = RecordId_null).
Proof.
  unfold findSingle. rewrite bind_gets.
  destruct (sdi_locate (store s) key RecordId_min) as [[k l]|] eqn:Hloc.
  - destruct (woCompare key k BSONObj_empty false =? 0) eqn:Hcmp; simpl.
    + apply Z.eqb_eq in Hcmp. exists l. split; [done|].
      repeat split; try done.
      * intros k0 l0 [= <- <-] Hne. by destruct Hne.
      * by intros k0 l0 [= <- <-] _.
      * intros _. exists k. repeat split; try done.
        by eapply locate_contains.
      * intros Hempty. destruct (Hempty k l). by eapply locate_contains.
    + apply Z.eqb_neq in Hcmp. exists RecordId_null. split; [done|].
      repeat split; try done.
      intros k0 l0 [= <- <-] Heq. by destruct Hcmp.
  - exists RecordId_null. repeat split; done.
Qed.
End FindSingle.

(** ** Tickets *)

Section Tickets.
Context `{Collaborators}.

(** C3, as the code has it.  [update] reads its ticket and never writes
    to it: whenever the call returns, with whatever status, the ticket
    is the one it was given, so a valid ticket is still valid after a
    successful update.  On a ticket whose valid flag is false the call
    returns the internal error "Invalid UpdateTicket in update" and
    leaves the store, the multikey flag, the history of calls and
    [*numUpdated] as they were. *)
Theorem update_reads_ticket (ticket : UpdateTicket) (numUpdated : Z)
    (s : State) :
  (forall st n t s',
      update ticket numUpdated s = Normal (st, n, t) s' -> t = ticket) /\
  (_isValid ticket = false ->
   update ticket numUpdated s =
     Normal (invalid_ticket_status, numUpdated, ticket) s).
Proof.
  unfold update. destruct (_isValid ticket); simpl; split; try done.
  - intros st n t s'.
    destruct (_indexSpecificUpdateData ticket) as [data|]; [|done].
    unfold update_apply, bind.
    repeat case_match; try done; unfold ret; intros [= <- <- <- <-]; done.
  - by intros st n t s' [= <- <- <- <-].
Qed.
End Tickets.


(** ** Relations between the state before and after a call *)

Section StateRelation.
Context `{Collaborators}.

Context (R : State -> State -> Prop) {HR : Respected R}.

Lemma respects_ret {A} (a : A) : respects R (ret a).
Proof. intros s. apply R_refl. Qed.

Lemma respects_raise {A} (e : Exn) : respects R (raise (A := A) e).
Proof. intros s. apply R_refl. Qed.

Lemma respects_gets {A} (g : State -> A) : respects R (gets g).
Proof. intros s. apply R_refl. Qed.

Lemma respects_bind {A B} (m : M A) (f : A -> M B) :
  respects R m -> (forall a, respects R (f a)) -> respects R (bind m f).
Proof.
  intros Hm Hf s. unfold bind. specialize (Hm s).
  destruct (m s) as [a s'|e s']; simpl in *; [|done].
  eapply R_trans; [exact Hm | apply Hf].
Qed.

Lemma respects_if {A} (c : bool) (m1 m2 : M A) :
  respects R m1 -> respects R m2 -> respects R (if c then m1 else m2).
Proof. by destruct c. Qed.

Lemma respects_when (c : bool) (m : M unit) : respects R m -> respects R (when c m).
Proof. intros Hm. destruct c; [done | apply respects_ret]. Qed.

Lemma respects_call_insert k l d : respects R (call_insert k l d).
Proof. intros s. rewrite call_insert_eq. apply R_store. Qed.

Lemma respects_call_addKey k l : respects R (call_addKey k l).
Proof. intros s. rewrite call_addKey_eq. apply R_store. Qed.

Lemma respects_call_unindex k l d : respects R (call_unindex k l d).
Proof.
  intros s. unfold call_unindex.
  destruct sdi_unindex as [sto []]; apply R_store.
Qed.

Lemma respects_removeOneKey k l d : respects R (removeOneKey k l d).
Proof. intros s. rewrite removeOneKey_eq. apply R_store. Qed.

Lemma respects_checkForInterrupt : respects R checkForInterrupt.
Proof.
  intros s. unfold checkForInterrupt. destruct (killPending s); apply R_refl.
Qed.

Lemma respects_call_getBulkBuilder d : respects R (call_getBulkBuilder d).
Proof. intros s. apply R_store. Qed.

Lemma respects_call_builderCommit b : respects R (call_builderCommit b).
Proof. intros s. apply R_store. Qed.

Lemma respects_ignoreKeyTooLong : respects R ignoreKeyTooLong.
Proof. apply respects_gets. Qed.

Hint Resolve respects_ret respects_raise respects_gets respects_bind respects_if respects_when
  respects_call_insert respects_call_addKey respects_call_unindex respects_removeOneKey
  respects_checkForInterrupt respects_call_getBulkBuilder respects_call_builderCommit
  respects_ignoreKeyTooLong : core.

Ltac respects_step :=
  repeat first
    [ apply respects_bind; [|intros ?]
    | apply respects_if
    | apply respects_when
    | progress auto
    | match goal with |- respects _ (match ?x with _ => _ end) => destruct x end ].

Lemma respects_insert_cleanup before l d n : respects R (insert_cleanup before l d n).
Proof.
  revert n. induction before as [|j js IH]; intros n; simpl; respects_step.
Qed.

Lemma respects_insert_body before i l d n : respects R (insert_body before i l d n).
Proof. unfold insert_body. respects_step. apply respects_insert_cleanup. Qed.

Lemma respects_insert_loop before rest l d n : respects R (insert_loop before rest l d n).
Proof.
  revert before n. induction rest as [|i rest IH]; intros before n; simpl.
  - auto.
  - apply respects_bind; [apply respects_insert_body|]. intros [n'|x]; auto.
Qed.

Lemma respects_remove_loop keys l d n : respects R (remove_loop keys l d n).
Proof. revert n. induction keys as [|i keys IH]; intros n; simpl; respects_step. Qed.

Lemma respects_remove obj l o : respects R (remove obj l o).
Proof. unfold remove. apply respects_bind; [apply respects_remove_loop | auto]. Qed.

Lemma respects_setDifference l r diff : respects R (setDifference l r diff).
Proof. unfold setDifference. respects_step. Qed.

Lemma respects_validateUpdate from to r o : respects R (validateUpdate from to r o).
Proof.
  unfold validateUpdate.
  apply respects_bind; [apply respects_setDifference|]. intros rem.
  apply respects_bind; [apply respects_setDifference|]. auto.
Qed.

Lemma respects_findSingle key : respects R (findSingle key).
Proof. unfold findSingle. respects_step. Qed.

Lemma respects_update_unindex keys l d : respects R (update_unindex keys l d).
Proof. induction keys as [|k keys IH]; simpl; respects_step. Qed.

Lemma respects_update_insert keys l d : respects R (update_insert keys l d).
Proof. induction keys as [|k keys IH]; simpl; respects_step. Qed.

Lemma respects_BulkBuilder_insert b obj l o n : respects R (BulkBuilder_insert b obj l o n).
Proof. unfold BulkBuilder_insert. auto. Qed.

Lemma respects_commitBulk_body d mi dups drop : respects R (commitBulk_body d mi dups drop).
Proof. unfold commitBulk_body. respects_step. Qed.

Lemma respects_commitBulk_loop i mi dups drop : respects R (commitBulk_loop i mi dups drop).
Proof.
  revert drop. induction i as [|d i IH]; intros drop; simpl.
  - auto.
  - apply respects_bind; [apply respects_commitBulk_body|]. intros [drop'|st]; auto.
Qed.

Lemma respects_commitBulk_end mi r : respects R (commitBulk_end mi r).
Proof. unfold commitBulk_end. respects_step. Qed.
End StateRelation.

Section MultikeyMonotone.
Context `{Collaborators}.

#[global] Instance stays_set_respected : Respected stays_set.
Proof. split; unfold stays_set; auto. Qed.

#[global] Instance extends_respected : Respected extends.
Proof.
  split.
  - intros s. exists []. by rewrite app_nil_r.
  - intros a b c [c1 H1] [c2 H2]. exists (c1 ++ c2).
    by rewrite H2, H1, <- app_assoc.
  - intros s sto c. by exists [c].
Qed.

Lemma monotone_setMultikey : respects stays_set setMultikey.
Proof. by intros s _. Qed.

Lemma extends_setMultikey : respects extends setMultikey.
Proof. intros s. by exists [CallSetMultikey]. Qed.

Lemma respects_update_apply R `{!Respected R} ticket data n :
  respects R (update_apply ticket data n).
Proof.
  unfold update_apply.
  apply respects_bind; [done | by apply respects_update_unindex |].
  intros _. apply respects_bind; [done | by apply respects_update_insert |].
  intros [[]|st]; by apply respects_ret.
Qed.

Section WithSetMultikey.
Context (R : State -> State -> Prop) {HR : Respected R}.
Hypothesis R_setMultikey : respects R setMultikey.

Lemma respects_insert obj l o : respects R (insert obj l o).
Proof.
  unfold insert. apply respects_bind; [done| by apply respects_insert_loop |].
  intros [n|x]; [|by apply respects_ret].
  apply respects_bind; [done | by apply respects_when |].
  intros _. by apply respects_ret.
Qed.

Lemma respects_update ticket n : respects R (update ticket n).
Proof.
  unfold update. destruct (negb (_isValid ticket)).
  { by apply respects_ret. }
  destruct (_indexSpecificUpdateData ticket) as [data|].
  2: { by apply respects_raise. }
  apply respects_bind; [done | by apply respects_when |].
  intros _. by apply respects_update_apply.
Qed.

Lemma respects_commitBulk bulk mi dups drop :
  respects R (commitBulk bulk mi dups drop).
Proof.
  unfold commitBulk, commitBulk_begin. apply respects_bind; [done | |].
  { apply respects_bind; [done | by apply respects_when |].
    intros _. by apply respects_call_getBulkBuilder. }
  intros _. apply respects_bind; [done | by apply respects_commitBulk_loop |].
  intros r. by apply respects_commitBulk_end.
Qed.

Lemma respects_run_op (op : Op) (s : State) : R s (run_op op s).
Proof.
  destruct op; cbv [run_op].
  - apply respects_insert.
  - by apply respects_remove.
  - by apply respects_validateUpdate.
  - apply respects_update.
  - by apply respects_findSingle.
  - by apply respects_BulkBuilder_insert.
  - apply respects_commitBulk.
Qed.
End WithSetMultikey.

(** C9.  Every call of the access method (insert, remove,
    validateUpdate, update, findSingle, bulk accumulation, bulk build),
    whether it returns or throws, leaves the multikey flag as it was
    or sets it; hence after any sequence of such calls a flag that was
    set is still set. *)
Theorem multikey_monotone (ops : list Op) (s : State) :
  multikey s = true ->
  multikey (run_ops ops s) = true /\
  forall op s', multikey (run_op op s') = multikey s' \/
                multikey (run_op op s') = true.
Proof.
  intros Hset. split.
  - revert s Hset. induction ops as [|op ops IH]; intros s Hset; [done|].
    simpl. apply IH.
    by apply (respects_run_op stays_set monotone_setMultikey).
  - intros op s'.
    pose proof (respects_run_op stays_set monotone_setMultikey op s') as Hmono.
    unfold stays_set in Hmono.
    destruct (multikey s'), (multikey (run_op op s')); auto.
Qed.
End MultikeyMonotone.

(** ** Runs of store calls *)

Section StoreRuns.
Context `{Collaborators}.

Lemma unindexed_cons k keys l d s :
  unindexed (k :: keys) l d s =
    unindexed keys l d (with_store s (fst (sdi_unindex (store s) k l d))
                                   (CallUnindex k l d)).
Proof. done. Qed.

Lemma inserted_cons k keys l d s :
  inserted (k :: keys) l d s =
    inserted keys l d (with_store s (snd (sdi_insert (store s) k l d))
                                  (CallInsert k l d)).
Proof. done. Qed.

Lemma unindexed_history keys l d s :
  history (unindexed keys l d s)
    = history s ++ map (fun k => CallUnindex k l d) keys.
Proof.
  revert s. induction keys as [|k keys IH]; intros s.
  - simpl. by rewrite app_nil_r.
  - rewrite unindexed_cons, IH. simpl. by rewrite <- app_assoc.
Qed.

Lemma unindexed_multikey keys l d s :
  multikey (unindexed keys l d s) = multikey s.
Proof.
  revert s. induction keys as [|k keys IH]; intros s; [done|].
  by rewrite unindexed_cons, IH.
Qed.

Lemma inserted_history keys l d s :
  history (inserted keys l d s)
    = history s ++ map (fun k => CallInsert k l d) keys.
Proof.
  revert s. induction keys as [|k keys IH]; intros s.
  - simpl. by rewrite app_nil_r.
  - rewrite inserted_cons, IH. simpl. by rewrite <- app_assoc.
Qed.

Lemma inserted_multikey keys l d s :
  multikey (inserted keys l d s) = multikey s.
Proof.
  revert s. induction keys as [|k keys IH]; intros s; [done|].
  by rewrite inserted_cons, IH.
Qed.

Lemma inserted_app keys1 keys2 l d s :
  inserted (keys1 ++ keys2) l d s = inserted keys2 l d (inserted keys1 l d s).
Proof. apply fold_left_app. Qed.

Lemma insert_cleanup_eq before l d n s :
  insert_cleanup before l d n s =
    Normal (match before with [] => n | _ :: _ => 0 end)
           (unindexed before l d s).
Proof.
  revert n s. induction before as [|j js IH]; intros n s; [done|].
  rewrite unindexed_cons. simpl.
  erewrite bind_Normal by apply removeOneKey_eq.
  rewrite IH. by destruct js.
Qed.

Lemma update_unindex_Normal keys l d s s1 :
  update_unindex keys l d s = Normal tt s1 -> s1 = unindexed keys l d s.
Proof.
  revert s. induction keys as [|k keys IH]; intros s.
  - by intros [= ->].
  - rewrite unindexed_cons. simpl. unfold bind at 1, call_unindex.
    destruct (sdi_unindex (store s) k l d) as [sto []]; simpl; [done|].
    apply IH.
Qed.

Lemma update_insert_Next keys l d s s2 :
  update_insert keys l d s = Normal (Next tt) s2 -> s2 = inserted keys l d s.
Proof.
  revert s. induction keys as [|k keys IH]; intros s.
  - by intros [= ->].
  - rewrite inserted_cons. simpl.
    erewrite bind_Normal by apply call_insert_eq.
    destruct (negb _); [done|]. apply IH.
Qed.

(** An iteration of [insert] that goes on has called [insert] of the
    store once and nothing else. *)
Lemma insert_body_Next before i l d n s n' s' :
  insert_body before i l d n s = Normal (Next n') s' ->
  s' = inserted [i] l d s.
Proof.
  unfold insert_body. erewrite bind_Normal by apply call_insert_eq.
  destruct (StatusOps.isOK _); [by intros [= _ <-]|].
  unfold bind at 1.
  destruct (is_code _ ErrorCodes.KeyTooLong); simpl.
  - destruct (negb _ || negb _); simpl; [by intros [= _ <-]|].
    unfold bind at 1.
    destruct (is_code _ ErrorCodes.DuplicateKeyValue); simpl.
    + destruct (negb _); simpl; [by intros [= _ <-]|].
      erewrite bind_Normal by apply insert_cleanup_eq. done.
    + erewrite bind_Normal by apply insert_cleanup_eq. done.
  - unfold bind at 1.
    destruct (is_code _ ErrorCodes.DuplicateKeyValue); simpl.
    + destruct (negb _); simpl; [by intros [= _ <-]|].
      erewrite bind_Normal by apply insert_cleanup_eq. done.
    + erewrite bind_Normal by apply insert_cleanup_eq. done.
Qed.

Lemma insert_loop_Next before pre l d n s n' s' :
  insert_loop before pre l d n s = Normal (Next n') s' ->
  s' = inserted pre l d s /\ (pre = [] -> n' = n).
Proof.
  revert before n s. induction pre as [|i pre IH]; intros before n s.
  - by intros [= -> ->].
  - rewrite inserted_cons. simpl. unfold bind at 1.
    destruct (insert_body before i l d n s) as [[n1|x] s1|e s1] eqn:Hbody;
      try done.
    apply insert_body_Next in Hbody. subst s1.
    intros Hloop. apply IH in Hloop. by destruct Hloop as [-> _].
Qed.

(** The loop of [insert] over [pre ++ rest] is the loop over [pre]
    followed, when that goes on, by the loop over [rest]. *)
Lemma insert_loop_app before pre rest l d n s :
  insert_loop before (pre ++ rest) l d n s =
    match insert_loop before pre l d n s with
    | Normal (Next n') s' => insert_loop (before ++ pre) rest l d n' s'
    | Normal (Return x) s' => Normal (Return x) s'
    | Raised e s' => Raised e s'
    end.
Proof.
  revert before n s. induction pre as [|i pre IH]; intros before n s.
  - simpl. by rewrite app_nil_r.
  - cbn [insert_loop app]. unfold bind.
    destruct (insert_body before i l d n s) as [[n1|x] s1|e s1]; try done.
    rewrite IH. by rewrite <- app_assoc.
Qed.

(** An iteration whose store call fails with a failure that is not
    passed over cleans up and returns that failure. *)
Lemma insert_body_fatal before i l d n s :
  let st := fst (sdi_insert (store s) i l d) in
  StatusOps.isOK st = false ->
  tolerated st s = false ->
  insert_body before i l d n s =
    Normal (Return (st, match before with [] => n | _ :: _ => 0 end))
           (unindexed before l d (inserted [i] l d s)).
Proof.
  intros st Hfail Htol. unfold insert_body.
  erewrite bind_Normal by apply call_insert_eq. fold st. rewrite Hfail.
  unfold tolerated in Htol. apply orb_false_iff in Htol as [Hlong Hdup].
  unfold bind at 1.
  destruct (is_code st ErrorCodes.KeyTooLong); simpl in *.
  - rewrite Hlong; simpl. unfold bind at 1.
    destruct (is_code st ErrorCodes.DuplicateKeyValue); simpl in *.
    + rewrite Hdup; simpl.
      erewrite bind_Normal by apply insert_cleanup_eq. done.
    + erewrite bind_Normal by apply insert_cleanup_eq. done.
  - unfold bind at 1.
    destruct (is_code st ErrorCodes.DuplicateKeyValue); simpl in *.
    + rewrite Hdup; simpl.
      erewrite bind_Normal by apply insert_cleanup_eq. done.
    + erewrite bind_Normal by apply insert_cleanup_eq. done.
Qed.

Section WithContract.
Context {SC : StoreContract}.

Lemma unindexed_shrinks keys l d s k' l' :
  contains (store (unindexed keys l d s)) k' l' -> contains (store s) k' l'.
Proof.
  revert s. induction keys as [|k keys IH]; intros s; [done|].
  rewrite unindexed_cons. intros Hin. apply IH in Hin. simpl in Hin.
  by eapply unindex_shrinks.
Qed.

Lemma unindexed_absent keys l d s k :
  k ∈ keys -> ~ contains (store (unindexed keys l d s)) k l.
Proof.
  revert s. induction keys as [|k0 keys IH]; intros s Hin.
  - by apply elem_of_nil in Hin.
  - rewrite unindexed_cons. apply elem_of_cons in Hin as [->|Hin].
    + intros Hc. apply unindexed_shrinks in Hc. simpl in Hc.
      by apply (unindex_removes (store s) k0 l d).
    + by apply IH.
Qed.

Lemma inserted_contains keys l d s k' l' :
  contains (store (inserted keys l d s)) k' l' ->
  contains (store s) k' l' \/ (k' ∈ keys /\ l' = l).
Proof.
  revert s. induction keys as [|k keys IH]; intros s; [by left|].
  rewrite inserted_cons. intros Hin. apply IH in Hin as [Hin|[Hin ->]].
  - simpl in Hin. apply insert_adds_one in Hin as [Hin|[-> ->]].
    + by left.
    + right. split; [apply elem_of_cons; by left | done].
  - right. split; [apply elem_of_cons; by right | done].
Qed.
End WithContract.
End StoreRuns.

(** ** Failure of insert *)

Section UnindexRuns.
Context `{Collaborators} {UC : UnindexContract}.

Lemma unindexed_adds_none keys l d s k' l' :
  holds (store (unindexed keys l d s)) k' l' -> holds (store s) k' l'.
Proof.
  revert s. induction keys as [|k keys IH]; intros s; [done|].
  rewrite unindexed_cons. intros Hin. apply IH in Hin. simpl in Hin.
  by eapply unindex_adds_none.
Qed.

(** A key whose [unindex] returned, at its turn in the run, is out of
    the store at the end of the run, whatever the other calls did. *)
Lemma unindexed_takes_out p1 k p2 l d s :
  snd (sdi_unindex (store (unindexed p1 l d s)) k l d) = false ->
  ~ holds (store (unindexed (p1 ++ k :: p2) l d s)) k l.
Proof.
  intros Hreturned Hin. unfold unindexed in Hin at 1.
  rewrite fold_left_app in Hin. fold (unindexed p1 l d s) in Hin.
  change (holds (store (unindexed (k :: p2) l d (unindexed p1 l d s))) k l)
    in Hin.
  rewrite unindexed_cons in Hin. apply unindexed_adds_none in Hin.
  simpl in Hin. by apply (unindex_takes_out _ _ _ _ Hreturned).
Qed.
End UnindexRuns.

Section InsertFailure.
Context `{Collaborators}.

(** C1, as the code has it.  Let the document give the keys
    [pre ++ ki :: post], let the loop of [insert] get through [pre]
    (each key inserted or passed over), and let the store refuse [ki]
    with a failure that is not passed over.  Then, on every store,
    [insert] returns that failure with a count of 0, having called
    [unindex] on every key of [pre], in order, right after the refused
    call and nothing else; an assertion thrown by one of these calls is
    absorbed; the multikey flag is as before the call.  On a store
    whose [unindex] takes the entry out when it returns and never adds
    one, every key of [pre] whose [unindex] returned is out of the
    store for the record.  Nothing is said of [ki] and the keys after
    it: what the index held for them stays. *)
Theorem insert_rolls_back (obj : BSONObj) (l : RecordId)
    (options : InsertDeleteOptions.t) (s : State)
    (pre : list BSONObj) (ki : BSONObj) (post : list BSONObj)
    (n_i : Z) (s_i : State) :
  let d := InsertDeleteOptions.dupsAllowed options in
  getKeys obj = pre ++ ki :: post ->
  insert_loop [] pre l d 0 s = Normal (Next n_i) s_i ->
  StatusOps.isOK (fst (sdi_insert (store s_i) ki l d)) = false ->
  tolerated (fst (sdi_insert (store s_i) ki l d)) s_i = false ->
  exists s',
    insert obj l options s
      = Normal (fst (sdi_insert (store s_i) ki l d), 0) s' /\
    s' = unindexed pre l d (inserted (pre ++ [ki]) l d s) /\
    history s' = history s ++ map (fun k => CallInsert k l d) (pre ++ [ki])
                           ++ map (fun k => CallUnindex k l d) pre /\
    multikey s' = multikey s /\
    forall (UC : UnindexContract) p1 k p2,
      pre = p1 ++ k :: p2 ->
      snd (sdi_unindex
             (store (unindexed p1 l d (inserted (pre ++ [ki]) l d s))) k l d)
        = false ->
      ~ holds (store s') k l.
Proof.
  intros d Hkeys Hpre Hfail Htol.
  pose proof (insert_loop_Next _ _ _ _ _ _ _ _ Hpre) as [Hs_i Hn_i].
  exists (unindexed pre l d (inserted (pre ++ [ki]) l d s)).
  split; [|split; [done|split; [|split]]].
  - assert (Hloop : insert_loop [] (pre ++ ki :: post) l d 0 s
                    = Normal (Return (fst (sdi_insert (store s_i) ki l d), 0))
                             (unindexed pre l d (inserted (pre ++ [ki]) l d s))).
    { rewrite insert_loop_app, Hpre. cbn [insert_loop app].
      erewrite bind_Normal by (by apply insert_body_fatal).
      unfold ret. rewrite inserted_app, <- Hs_i. f_equal. f_equal. f_equal.
      destruct pre; [by apply Hn_i | done]. }
    unfold insert. fold d. rewrite Hkeys.
    by erewrite bind_Normal by exact Hloop.
  - by rewrite unindexed_history, inserted_history, <- app_assoc.
  - by rewrite unindexed_multikey, inserted_multikey.
  - intros UC p1 k p2 -> Hreturned. by apply unindexed_takes_out.
Qed.
End InsertFailure.

(** ** Failure of update *)

Section UpdateFailure.
Context `{Collaborators} {SC : StoreContract}.

Lemma update_insert_app pre rest l d s :
  update_insert (pre ++ rest) l d s =
    match update_insert pre l d s with
    | Normal (Next _) s' => update_insert rest l d s'
    | r => r
    end.
Proof.
  revert s. induction pre as [|k pre IH]; intros s; [done|].
  cbn [update_insert app]. unfold bind.
  destruct (call_insert k l d s) as [st s1|e s1]; [|done].
  destruct (negb (StatusOps.isOK st)); [done | apply IH].
Qed.

Lemma update_valid ticket data n s :
  _isValid ticket = true ->
  _indexSpecificUpdateData ticket = Some data ->
  update ticket n s = update_apply ticket data n (update_start data s).
Proof.
  intros Hvalid Hdata. unfold update, update_start. rewrite Hvalid, Hdata; simpl.
  unfold when. by destruct (multikey_test data).
Qed.

(** C4.  Let a valid ticket be applied, let the removals go through,
    let the keys [pre] of [added] be inserted, and let the store refuse
    the next key [k].  Then [update] returns that failure at once,
    with [*numUpdated] untouched: the state it leaves is the one right
    after the refused call, in which the calls issued are the removals
    followed by the insertions up to [k] and nothing undoes them.  On a
    store that honours its contract, a removed key that is not among
    the keys inserted is not in the store for the record. *)
Theorem update_no_rollback (ticket : UpdateTicket)
    (data : BtreeBasedPrivateUpdateData) (numUpdated : Z) (s s1 s2 : State)
    (pre : list BSONObj) (k : BSONObj) (post : list BSONObj) :
  let l := loc data in
  let d := dupsAllowed data in
  _isValid ticket = true ->
  _indexSpecificUpdateData ticket = Some data ->
  update_unindex (removed data) l d (update_start data s) = Normal tt s1 ->
  added data = pre ++ k :: post ->
  update_insert pre l d s1 = Normal (Next tt) s2 ->
  StatusOps.isOK (fst (sdi_insert (store s2) k l d)) = false ->
  exists s',
    update ticket numUpdated s
      = Normal (fst (sdi_insert (store s2) k l d), numUpdated, ticket) s' /\
    s' = inserted (pre ++ [k]) l d
           (unindexed (removed data) l d (update_start data s)) /\
    history s' = history (update_start data s)
                   ++ map (fun r => CallUnindex r l d) (removed data)
                   ++ map (fun a => CallInsert a l d) (pre ++ [k]) /\
    forall r, r ∈ removed data -> r ∉ pre ++ [k] ->
              ~ contains (store s') r l.
Proof.
  intros l d Hvalid Hdata Hrem Hadded Hpre Hfail.
  apply update_unindex_Normal in Hrem as Hs1.
  apply update_insert_Next in Hpre as Hs2.
  exists (inserted (pre ++ [k]) l d
            (unindexed (removed data) l d (update_start data s))).
  split; [|split; [done|split]].
  - rewrite (update_valid _ _ _ _ Hvalid Hdata). unfold update_apply.
    fold l d. erewrite bind_Normal by exact Hrem.
    assert (Hloop : update_insert (added data) l d s1
                    = Normal (Return (fst (sdi_insert (store s2) k l d)))
                             (inserted (pre ++ [k]) l d
                                (unindexed (removed data) l d
                                   (update_start data s)))).
    { rewrite Hadded, update_insert_app, Hpre. cbn [update_insert].
      erewrite bind_Normal by apply call_insert_eq.
      rewrite Hfail. simpl. unfold ret.
      by rewrite inserted_app, <- Hs1, <- Hs2. }
    by erewrite bind_Normal by exact Hloop.
  - by rewrite inserted_history, unindexed_history, <- app_assoc.
  - intros r Hr Hnot Hc.
    apply inserted_contains in Hc as [Hc|[Hin _]]; [|done].
    by apply unindexed_absent in Hc.
Qed.

(** C5.  When a valid ticket has
    [|oldKeys| + |added| - |removed| > 1] (the sizes fitting [size_t]),
    the first thing [update] does is to set the multikey flag: the
    call is the two loops run from the state in which the flag is set
    and the store is untouched.  So, however the call ends, the calls
    it has issued are [setMultikey] followed by the calls of the
    loops, and the flag is set in the state it leaves. *)
Theorem update_sets_multikey_first (ticket : UpdateTicket)
    (data : BtreeBasedPrivateUpdateData) (numUpdated : Z) (s : State) :
  _isValid ticket = true ->
  _indexSpecificUpdateData ticket = Some data ->
  size (elems (oldKeys data)) + size (added data) < 2 ^ 64 ->
  size (elems (oldKeys data)) + size (added data) - size (removed data) > 1 ->
  let s0 := mkState (store s) true (ready s) (primary s)
                    (failIndexKeyTooLong s) (killPending s)
                    (history s ++ [CallSetMultikey]) in
  update ticket numUpdated s = update_apply ticket data numUpdated s0 /\
  (exists calls,
      history (final (update ticket numUpdated s))
        = history s ++ CallSetMultikey :: calls) /\
  multikey (final (update ticket numUpdated s)) = true.
Proof.
  intros Hvalid Hdata Hfit Hmany s0.
  assert (Htest : multikey_test data = true).
  { unfold multikey_test, size_t, size in *. apply Z.ltb_lt.
    rewrite (Z.mod_small (_ + _)) by lia. rewrite Z.mod_small; lia. }
  assert (Hrun : update ticket numUpdated s
                 = update_apply ticket data numUpdated s0).
  { rewrite (update_valid _ _ _ _ Hvalid Hdata).
    unfold update_start. by rewrite Htest. }
  split; [done|]. rewrite Hrun. split.
  - destruct (respects_update_apply extends ticket data numUpdated s0)
      as [calls Hcalls].
    exists calls. rewrite Hcalls. simpl. by rewrite <- app_assoc.
  - by apply (respects_update_apply stays_set ticket data numUpdated s0).
Qed.
End UpdateFailure.

(** ** The key delta *)

Section KeyDelta.
Context `{Collaborators} {CC : ComparisonContract}.

Implicit Types x y z : BSONObj.

Lemma cmp_flip x y :
  (woCompare1 y x < 0 <-> 0 < woCompare1 x y) /\
  (woCompare1 y x = 0 <-> woCompare1 x y = 0).
Proof.
  pose proof (woCompare1_sgn x y) as Hsgn.
  destruct (woCompare1 x y), (woCompare1 y x); simpl in Hsgn; split; split;
    intros; try done; lia.
Qed.

Lemma cmp_refl x : woCompare1 x x = 0.
Proof.
  pose proof (woCompare1_sgn x x) as Hsgn.
  destruct (woCompare1 x x); simpl in Hsgn; done.
Qed.

Lemma cmp_le_lt_trans x y z :
  woCompare1 x y <= 0 -> woCompare1 y z < 0 -> woCompare1 x z < 0.
Proof.
  intros Hxy Hyz.
  destruct (Z.lt_ge_cases (woCompare1 x z) 0) as [|Hge]; [done|].
  assert (Hzx : woCompare1 z x <= 0).
  { destruct (cmp_flip z x) as [H1 H2].
    destruct (Z.eq_dec (woCompare1 z x) 0); lia. }
  pose proof (woCompare1_trans _ _ _ Hzx Hxy) as Hzy.
  destruct (cmp_flip z y) as [H1 H2]. lia.
Qed.

Lemma cmp_lt_le_trans x y z :
  woCompare1 x y < 0 -> woCompare1 y z <= 0 -> woCompare1 x z < 0.
Proof.
  intros Hxy Hyz.
  destruct (Z.lt_ge_cases (woCompare1 x z) 0) as [|Hge]; [done|].
  assert (Hzx : woCompare1 z x <= 0).
  { destruct (cmp_flip z x) as [H1 H2].
    destruct (Z.eq_dec (woCompare1 z x) 0); lia. }
  pose proof (woCompare1_trans _ _ _ Hyz Hzx) as Hyx.
  destruct (cmp_flip y x) as [H1 H2]. lia.
Qed.

Lemma order_equal_sym x y : order_equal x y = order_equal y x.
Proof.
  unfold order_equal. destruct (cmp_flip x y) as [_ Heq].
  destruct (woCompare1 x y =? 0) eqn:E1, (woCompare1 y x =? 0) eqn:E2;
    try done; rewrite ?Z.eqb_eq, ?Z.eqb_neq in *; tauto.
Qed.

Lemma order_equal_trans x y z :
  order_equal x y = true -> order_equal y z = true -> order_equal x z = true.
Proof.
  unfold order_equal. rewrite !Z.eqb_eq. intros Hxy Hyz.
  destruct (cmp_flip x y) as [_ Hyx], (cmp_flip y z) as [_ Hzy].
  assert (Hxz : woCompare1 x z <= 0) by (apply (woCompare1_trans x y z); lia).
  assert (Hzx : woCompare1 z x <= 0) by (apply (woCompare1_trans z y x); lia).
  destruct (cmp_flip x z) as [H1 H2].
  destruct (Z.eq_dec (woCompare1 x z) 0); lia.
Qed.

Lemma member_true x l :
  member x l = true <-> exists y, In y l /\ order_equal x y = true.
Proof. apply existsb_exists. Qed.

Lemma member_app x l1 l2 : member x (l1 ++ l2) = member x l1 || member x l2.
Proof. apply existsb_app. Qed.

Lemma member_below x l :
  Forall (fun y => woCompare1 y x < 0) l -> member x l = false.
Proof.
  intros Hall. apply not_true_is_false. intros Hm.
  apply member_true in Hm as (y & Hy & Heq).
  rewrite Forall_forall in Hall. apply list_elem_of_In, Hall in Hy.
  unfold order_equal in Heq. apply Z.eqb_eq in Heq.
  destruct (cmp_flip x y). lia.
Qed.

Lemma member_above x l :
  Forall (fun y => woCompare1 x y < 0) l -> member x l = false.
Proof.
  intros Hall. apply not_true_is_false. intros Hm.
  apply member_true in Hm as (y & Hy & Heq).
  rewrite Forall_forall in Hall. apply list_elem_of_In, Hall in Hy.
  unfold order_equal in Heq. apply Z.eqb_eq in Heq. lia.
Qed.

(** The inner loop drops a prefix of elements below [x] and stops at
    the end or on an element that is not below [x]. *)
Lemma advance_split x j :
  exists skipped,
    j = skipped ++ advance x j /\
    Forall (fun y => woCompare1 y x < 0) skipped /\
    match advance x j with
    | [] => True
    | y :: _ => 0 <= woCompare1 y x
    end.
Proof.
  induction j as [|y j (sk & Hj & Hsk & Hhead)]; simpl.
  - by exists [].
  - destruct (woCompare1 y x <? 0) eqn:Hlt.
    + apply Z.ltb_lt in Hlt. exists (y :: sk). simpl.
      split; [by rewrite <- Hj|]. split; [by constructor | done].
    + apply Z.ltb_ge in Hlt. by exists [].
Qed.

(** The walk keeps the elements of [i] that have no order-equal
    element in [j], in the order of [i]. *)
Lemma setDifference_walk_filter i j diff :
  ordered i -> ordered j ->
  setDifference_walk i j diff
    = diff ++ List.filter (fun x => negb (member x j)) i.
Proof.
  revert j diff. induction i as [|x i IH]; intros j diff Hi Hj.
  - simpl. by rewrite app_nil_r.
  - cbn [setDifference_walk List.filter].
    destruct (advance_split x j) as (sk & Hsplit & Hsk & Hhead).
    remember (advance x j) as j' eqn:Hj'. clear Hj'.
    apply StronglySorted_inv in Hi as [Hi Hx].
    assert (Hsorted' : ordered j').
    { rewrite Hsplit in Hj. by apply StronglySorted_app_1_r in Hj. }
    rewrite IH by done.
    assert (Hrest : List.filter (fun y => negb (member y j')) i
                    = List.filter (fun y => negb (member y j)) i).
    { apply filter_ext_in. intros y Hy. f_equal.
      rewrite Hsplit, member_app, (member_below y sk); [done|].
      rewrite Forall_forall in Hx. apply list_elem_of_In, Hx in Hy.
      eapply Forall_impl; [exact Hsk|]. simpl. intros z Hz.
      eapply cmp_lt_le_trans; [exact Hz | lia]. }
    assert (Hhere : match j' with
                    | [] => true
                    | y :: _ => negb (woCompare1 x y =? 0)
                    end = negb (member x j)).
    { rewrite Hsplit, member_app, (member_below x sk) by done. simpl.
      destruct j' as [|y j'']; [done|]. simpl. unfold order_equal at 1.
      destruct (woCompare1 x y =? 0) eqn:Heq; [done|]. simpl.
      rewrite member_above; [done|].
      apply Z.eqb_neq in Heq. destruct (cmp_flip x y) as [Hf1 Hf2].
      assert (Hxy : woCompare1 x y < 0).
      { destruct (cmp_flip y x) as [Hg1 Hg2]. lia. }
      apply StronglySorted_inv in Hsorted' as [_ Hy].
      eapply Forall_impl; [exact Hy|]. simpl. intros z Hz.
      eapply cmp_lt_le_trans; [exact Hxy | lia]. }
    rewrite Hrest, Hhere.
    destruct (negb (member x j)); simpl; [by rewrite <- app_assoc | done].
Qed.

Lemma filter_sublist (f : BSONObj -> bool) l : List.filter f l `sublist_of` l.
Proof.
  induction l as [|x l IH]; simpl; [constructor|].
  destruct (f x); by constructor.
Qed.

Lemma filter_ordered (f : BSONObj -> bool) l :
  ordered l -> ordered (List.filter f l).
Proof.
  induction l as [|x l IH]; simpl; [done|].
  intros Hl. apply StronglySorted_inv in Hl as [Hl Hx].
  destruct (f x); [|by apply IH].
  constructor; [by apply IH|].
  rewrite Forall_forall in *. intros y Hy. apply Hx.
  apply list_elem_of_In in Hy. apply filter_In in Hy as [Hy _].
  by apply list_elem_of_In.
Qed.

(** The elements kept by the walk have no order-equal element on the
    other side, not even up to order-equality. *)
Lemma filter_disjoint l r x :
  member x (List.filter (fun y => negb (member y r)) l) && member x r = false.
Proof.
  apply not_true_is_false. intros Hboth.
  apply andb_true_iff in Hboth as [Hl Hr].
  apply member_true in Hl as (a & Ha & Hxa).
  apply member_true in Hr as (b & Hb & Hxb).
  apply filter_In in Ha as [_ Hnot]. apply negb_true_iff in Hnot.
  assert (Hab : member a r = true); [|congruence].
  apply member_true. exists b. split; [done|].
  apply (order_equal_trans a x b); [by rewrite order_equal_sym | done].
Qed.

(** Taking out of [l] what has no counterpart in [r] and adding what
    of [r] has no counterpart in [l] gives [r], up to order-equality. *)
Lemma filter_delta l r x :
  member x r
  = (member x l && negb (member x (List.filter (fun y => negb (member y r)) l)))
    || member x (List.filter (fun y => negb (member y l)) r).
Proof.
  destruct (member x r) eqn:Hr; symmetry.
  - apply member_true in Hr as (b & Hb & Hxb).
    destruct (member b l) eqn:Hbl.
    + apply orb_true_iff. left. apply andb_true_iff. split.
      * apply member_true in Hbl as (a & Ha & Hba).
        apply member_true. exists a. split; [done|].
        by apply (order_equal_trans x b a).
      * apply negb_true_iff.
        pose proof (filter_disjoint l r x) as Hdis.
        apply andb_false_iff in Hdis as [Hdis|Hdis]; [done|].
        assert (member x r = true); [|congruence].
        apply member_true. by exists b.
    + apply orb_true_iff. right. apply member_true. exists b.
      split; [|done]. apply filter_In. by rewrite Hbl.
  - apply orb_false_iff. split.
    + destruct (member x l) eqn:Hl; [|done]. simpl. apply negb_false_iff.
      apply member_true in Hl as (a & Ha & Hxa).
      apply member_true. exists a. split; [|done].
      apply filter_In. split; [done|]. apply negb_true_iff.
      apply not_true_is_false. intros Har.
      apply member_true in Har as (b & Hb & Hab).
      assert (member x r = true); [|congruence].
      apply member_true. exists b. split; [done|].
      by apply (order_equal_trans x a b).
    + apply not_true_is_false. intros Hadd.
      apply member_true in Hadd as (b & Hb & Hxb).
      apply filter_In in Hb as [Hb _].
      assert (member x r = true); [|congruence].
      apply member_true. by exists b.
Qed.

(** C2.  For two key sets with the same ordering object, each
    iterating in strictly increasing order of the comparison,
    [setDifference], called as [validateUpdate] calls it, returns
    without raising and gives [removed] = the elements of [oldKeys]
    with no order-equal element in [newKeys], and [added] = the
    elements of [newKeys] with no order-equal element in [oldKeys].
    Up to order-equality, a key is in [newKeys] exactly when it is in
    [oldKeys] and not in [removed], or in [added]; no key is both in
    [added] and in [oldKeys], nor both in [removed] and in [newKeys];
    [removed] and [added] are subsequences of [oldKeys] and [newKeys]
    and are strictly increasing. *)
Theorem setDifference_delta (old new : BSONObjSet BSONObj) (s : State) :
  order old = order new ->
  ordered (elems old) ->
  ordered (elems new) ->
  exists rmv adds : list BSONObj,
    setDifference old new [] s = Normal rmv s /\
    setDifference new old [] s = Normal adds s /\
    rmv = List.filter (fun x => negb (member x (elems new))) (elems old) /\
    adds = List.filter (fun x => negb (member x (elems old))) (elems new) /\
    (forall x, member x (elems new)
               = (member x (elems old) && negb (member x rmv))
                 || member x adds) /\
    (forall x, member x adds && member x (elems old) = false) /\
    (forall x, member x rmv && member x (elems new) = false) /\
    rmv `sublist_of` elems old /\
    adds `sublist_of` elems new /\
    ordered rmv /\
    ordered adds.
Proof.
  intros Horder Hold Hnew.
  exists (List.filter (fun x => negb (member x (elems new))) (elems old)),
         (List.filter (fun x => negb (member x (elems old))) (elems new)).
  unfold setDifference. rewrite Horder, BSONObj_equal_refl.
  rewrite !setDifference_walk_filter by done. simpl.
  repeat split; try done.
  - intros x. apply filter_delta.
  - intros x. apply filter_disjoint.
  - intros x. apply filter_disjoint.
  - apply filter_sublist.
  - apply filter_sublist.
  - by apply filter_ordered.
  - by apply filter_ordered.
Qed.
End KeyDelta.

(** ** Duplicates during the bulk build *)

Section BulkDuplicates.
Context `{Collaborators}.

Lemma commitBulk_loop_app pre rest mi dups drop s :
  commitBulk_loop (pre ++ rest) mi dups drop s =
    match commitBulk_loop pre mi dups drop s with
    | Normal (Next drop') s' => commitBulk_loop rest mi dups drop' s'
    | r => r
    end.
Proof.
  revert drop s. induction pre as [|d pre IH]; intros drop s; [done|].
  cbn [commitBulk_loop app]. unfold bind.
  destruct (commitBulk_body d mi dups drop s) as [[drop'|st] s1|e s1];
    [apply IH | done | done].
Qed.

Lemma commitBulk_begin_eq bulk dups s :
  commitBulk_begin bulk dups s
    = Normal tt (final (commitBulk_begin bulk dups s)).
Proof. unfold commitBulk_begin. by destruct (_isMultiKey bulk). Qed.

(** An iteration whose [addKey] reports a duplicate on an index that
    disallows them: with a set, the record goes into the set and the
    loop goes on; without one, the loop returns the failure.  Either
    way the builder is not called again for the datum. *)
Lemma commitBulk_body_duplicate d mi drop s :
  (mi = true -> killPending s = false) ->
  code (fst (builder_addKey (store s) (fst d) (snd d)))
    = ErrorCodes.DuplicateKey ->
  commitBulk_body d mi false drop s =
    Normal (match drop with
            | Some set => Next (Some ({[snd d]} ∪ set))
            | None => Return (fst (builder_addKey (store s) (fst d) (snd d)))
            end)
           (with_store s (snd (builder_addKey (store s) (fst d) (snd d)))
                       (CallAddKey (fst d) (snd d))).
Proof.
  intros Hlive Hdup. unfold commitBulk_body.
  assert (Hcheck : when mi checkForInterrupt s = Normal tt s).
  { destruct mi; [|done]. unfold when, checkForInterrupt.
    by rewrite Hlive. }
  erewrite bind_Normal by exact Hcheck.
  erewrite bind_Normal by apply call_addKey_eq.
  unfold StatusOps.isOK, is_code. rewrite Hdup. simpl.
  by destruct drop.
Qed.

(** The caller's set only grows, and a null pointer stays null. *)
Lemma commitBulk_body_grows d mi dups set s r s' :
  commitBulk_body d mi dups (Some set) s = Normal r s' ->
  match r with
  | Next drop => exists set', drop = Some set' /\ set ⊆ set'
  | Return _ => True
  end.
Proof.
  unfold commitBulk_body, bind.
  destruct (when mi checkForInterrupt s) as [[] s1|e s1]; [|done].
  rewrite call_addKey_eq.
  destruct (negb (StatusOps.isOK _)).
  2: { intros [= <- _]. by exists set. }
  destruct (is_code _ ErrorCodes.KeyTooLong); simpl.
  - destruct (negb _ || negb _); simpl.
    + intros [= <- _]. by exists set.
    + destruct (is_code _ ErrorCodes.DuplicateKey); [|by intros [= <- _]].
      destruct dups; simpl; [done|]. intros [= <- _].
      exists ({[snd d]} ∪ set). split; [done | set_solver].
  - destruct (is_code _ ErrorCodes.DuplicateKey); [|by intros [= <- _]].
    destruct dups; simpl; [done|]. intros [= <- _].
    exists ({[snd d]} ∪ set). split; [done | set_solver].
Qed.

Lemma commitBulk_loop_grows i mi dups set s r s' :
  commitBulk_loop i mi dups (Some set) s = Normal r s' ->
  exists set', set ⊆ set' /\
    match r with
    | Next drop => drop = Some set'
    | Return (_, drop) => drop = Some set'
    end.
Proof.
  revert set s. induction i as [|d i IH]; intros set s; simpl.
  - intros [= <- _]. by exists set.
  - unfold bind.
    destruct (commitBulk_body d mi dups (Some set) s) as [[drop|st] s1|e s1]
      eqn:Hbody; [| |done].
    + apply commitBulk_body_grows in Hbody as (set1 & -> & Hsub).
      intros Hloop. apply IH in Hloop as (set' & Hsub' & Hr).
      exists set'. split; [set_solver | done].
    + intros [= <- _]. by exists set.
Qed.

(** C8.  Let the index disallow duplicates, let the loop of the build
    get through the data [pre] of the sorted stream, and let [addKey]
    report DuplicateKey for the next datum [d] (no interruption
    pending if interruptions are checked).  If the caller gave a set,
    the build goes on with the data after [d] and with the record of
    [d] in the set, from the state right after the refused [addKey];
    and whenever the build then returns, the set it hands back holds
    that record.  If the caller gave no set, the build returns the
    DuplicateKey failure from that state: no later datum is added and
    the builder is not committed. *)
Theorem commitBulk_duplicate (bulk : BulkBuilder) (mayInterrupt : bool)
    (dupsToDrop : option (gset RecordId)) (s : State)
    (pre : list (BSONObj * RecordId)) (d : BSONObj * RecordId)
    (post : list (BSONObj * RecordId))
    (drop_d : option (gset RecordId)) (s_d : State) :
  sorter_done (_sorter bulk) = pre ++ d :: post ->
  commitBulk_loop pre mayInterrupt false dupsToDrop
                  (final (commitBulk_begin bulk false s))
    = Normal (Next drop_d) s_d ->
  (mayInterrupt = true -> killPending s_d = false) ->
  code (fst (builder_addKey (store s_d) (fst d) (snd d)))
    = ErrorCodes.DuplicateKey ->
  let refused := fst (builder_addKey (store s_d) (fst d) (snd d)) in
  let s_a := with_store s_d (snd (builder_addKey (store s_d) (fst d) (snd d)))
                        (CallAddKey (fst d) (snd d)) in
  match drop_d with
  | Some set =>
      commitBulk bulk mayInterrupt false dupsToDrop s
        = bind (commitBulk_loop post mayInterrupt false
                                (Some ({[snd d]} ∪ set)))
               (commitBulk_end mayInterrupt) s_a /\
      forall st drop s',
        commitBulk bulk mayInterrupt false dupsToDrop s
          = Normal (st, drop) s' ->
        exists set', drop = Some set' /\ snd d ∈ set'
  | None =>
      commitBulk bulk mayInterrupt false dupsToDrop s
        = Normal (refused, None) s_a
  end.
Proof.
  intros Hstream Hpre Hlive Hdup refused s_a.
  assert (Hrun : commitBulk bulk mayInterrupt false dupsToDrop s
                 = bind (commitBulk_loop (d :: post) mayInterrupt false drop_d)
                        (commitBulk_end mayInterrupt) s_d).
  { unfold commitBulk.
    erewrite bind_Normal by apply commitBulk_begin_eq.
    rewrite Hstream. unfold bind.
    by rewrite commitBulk_loop_app, Hpre. }
  pose proof (commitBulk_body_duplicate d mayInterrupt drop_d s_d Hlive Hdup)
    as Hbody.
  destruct drop_d as [set|].
  - assert (Hgo : commitBulk bulk mayInterrupt false dupsToDrop s
                  = bind (commitBulk_loop post mayInterrupt false
                                          (Some ({[snd d]} ∪ set)))
                         (commitBulk_end mayInterrupt) s_a).
    { rewrite Hrun. cbn [commitBulk_loop]. unfold bind.
      by rewrite Hbody. }
    split; [done|]. rewrite Hgo. intros st drop s'. unfold bind.
    destruct (commitBulk_loop post mayInterrupt false _ s_a)
      as [r s1|e s1] eqn:Hloop; [|done].
    apply commitBulk_loop_grows in Hloop as (set' & Hsub & Hr).
    destruct r as [drop'|[st' drop']]; subst drop'; simpl.
    + unfold bind, call_builderCommit, modify, ret. intros [= _ <- _].
      exists set'. split; [done | set_solver].
    + intros [= _ <- _]. exists set'. split; [done | set_solver].
  - rewrite Hrun. cbn [commitBulk_loop]. unfold bind.
    by rewrite Hbody.
Qed.
End BulkDuplicates.

(** ** Oversized keys *)

Section OversizedKeys.
Context `{Collaborators}.

(** The answer is computed from the role and the server parameter as
    they are when the question is asked. *)
Lemma ignoreKeyTooLong_eq (s : State) :
  ignoreKeyTooLong s
    = Normal (negb (primary s) || negb (failIndexKeyTooLong s)) s.
Proof. done. Qed.

(** [insert] passes over an oversized key exactly when
    [ignoreKeyTooLong] says so. *)
Lemma insert_body_KeyTooLong before i l d n s :
  code (fst (sdi_insert (store s) i l d)) = ErrorCodes.KeyTooLong ->
  insert_body before i l d n s =
    if negb (primary s) || negb (failIndexKeyTooLong s)
    then Normal (Next n) (inserted [i] l d s)
    else Normal (Return (fst (sdi_insert (store s) i l d),
                         match before with [] => n | _ :: _ => 0 end))
                (unindexed before l d (inserted [i] l d s)).
Proof.
  intros Hcode. unfold insert_body.
  erewrite bind_Normal by apply call_insert_eq.
  unfold StatusOps.isOK, is_code. rewrite Hcode. simpl.
  unfold bind at 1. simpl.
  destruct (negb (primary s) || negb (failIndexKeyTooLong s)); [done|].
  simpl. unfold bind at 1. simpl.
  by erewrite bind_Normal by apply insert_cleanup_eq.
Qed.

(** So does the bulk build. *)
Lemma commitBulk_body_KeyTooLong d mi dups drop s :
  (mi = true -> killPending s = false) ->
  code (fst (builder_addKey (store s) (fst d) (snd d)))
    = ErrorCodes.KeyTooLong ->
  commitBulk_body d mi dups drop s =
    Normal (if negb (primary s) || negb (failIndexKeyTooLong s)
            then Next drop
            else Return (fst (builder_addKey (store s) (fst d) (snd d))))
           (with_store s (snd (builder_addKey (store s) (fst d) (snd d)))
                       (CallAddKey (fst d) (snd d))).
Proof.
  intros Hlive Hcode. unfold commitBulk_body.
  assert (Hcheck : when mi checkForInterrupt s = Normal tt s).
  { destruct mi; [|done]. unfold when, checkForInterrupt. by rewrite Hlive. }
  erewrite bind_Normal by exact Hcheck.
  erewrite bind_Normal by apply call_addKey_eq.
  unfold StatusOps.isOK, is_code. rewrite Hcode. simpl.
  unfold bind at 1. simpl.
  by destruct (negb (primary s) || negb (failIndexKeyTooLong s)).
Qed.

(** The second loop of [update] returns an oversized key's failure
    whatever the role and the server parameter are. *)
Lemma update_insert_KeyTooLong k keys l d s :
  code (fst (sdi_insert (store s) k l d)) = ErrorCodes.KeyTooLong ->
  update_insert (k :: keys) l d s
    = Normal (Return (fst (sdi_insert (store s) k l d))) (inserted [k] l d s).
Proof.
  intros Hcode. cbn [update_insert].
  erewrite bind_Normal by apply call_insert_eq.
  unfold StatusOps.isOK. by rewrite Hcode.
Qed.
End OversizedKeys.

(** ** Outcomes of insert and remove *)

Section InsertOutcome.
Context `{Collaborators}.

(** The state fields that only the environment changes. *)
Lemma inserted_tolerated keys l d s st :
  tolerated st (inserted keys l d s) = tolerated st s.
Proof.
  revert s. induction keys as [|k keys IH]; intros s; [done|].
  by rewrite inserted_cons, IH.
Qed.

Lemma insert_body_pass before i l d n s :
  let st := fst (sdi_insert (store s) i l d) in
  StatusOps.isOK st || tolerated st s = true ->
  insert_body before i l d n s =
    Normal (Next (n + if StatusOps.isOK st then 1 else 0)) (inserted [i] l d s).
Proof.
  intros st Hpass. unfold insert_body.
  erewrite bind_Normal by apply call_insert_eq. fold st.
  destruct (StatusOps.isOK st) eqn:Hok; [done|]. simpl in Hpass.
  rewrite Z.add_0_r. unfold tolerated in Hpass. unfold bind at 1.
  destruct (is_code st ErrorCodes.KeyTooLong); simpl in *.
  - destruct (negb (primary s) || negb (failIndexKeyTooLong s)); simpl in *;
      [done|].
    unfold bind at 1.
    destruct (is_code st ErrorCodes.DuplicateKeyValue); simpl in *; [|done].
    by rewrite Hpass.
  - unfold bind at 1.
    destruct (is_code st ErrorCodes.DuplicateKeyValue); simpl in *; [|done].
    by rewrite Hpass.
Qed.

Lemma inserted_count_bounds keys l d s :
  0 <= inserted_count keys l d s <= size keys.
Proof.
  revert s. induction keys as [|k keys IH]; intros s; [done|].
  cbn [inserted_count]. specialize (IH (inserted [k] l d s)).
  unfold size in *. cbn [length].
  destruct (StatusOps.isOK _); lia.
Qed.

(** What the loop of [insert] comes to, from any iteration. *)
Lemma insert_loop_outcome rest before l d n s :
  exists r s',
    insert_loop before rest l d n s = Normal r s' /\
    match r with
    | Next n' =>
        all_pass rest l d s = true /\
        n' = n + inserted_count rest l d s /\
        s' = inserted rest l d s
    | Return (st, m) =>
        exists pre ki post,
          rest = pre ++ ki :: post /\
          all_pass pre l d s = true /\
          st = fst (sdi_insert (store (inserted pre l d s)) ki l d) /\
          StatusOps.isOK st = false /\
          tolerated st s = false /\
          s' = unindexed (before ++ pre) l d (inserted (pre ++ [ki]) l d s) /\
          m = match before ++ pre with [] => n | _ :: _ => 0 end
    end.
Proof.
  revert before n s. induction rest as [|i rest IH]; intros before n s.
  - eexists _, _. split; [reflexivity|]. simpl. repeat split. lia.
  - cbn [insert_loop].
    destruct (StatusOps.isOK (fst (sdi_insert (store s) i l d))
              || tolerated (fst (sdi_insert (store s) i l d)) s) eqn:Hpass.
    + erewrite bind_Normal by (by apply insert_body_pass).
      destruct (IH (before ++ [i])
                   (n + if StatusOps.isOK (fst (sdi_insert (store s) i l d))
                        then 1 else 0)
                   (inserted [i] l d s)) as (r & s' & Hrun & Hr).
      exists r, s'. split; [exact Hrun|].
      destruct r as [n'|[st m]].
      * destruct Hr as (Hall & -> & ->). cbn [all_pass inserted_count].
        rewrite Hpass, Hall. repeat split. lia.
      * destruct Hr as (pre & ki & post & -> & Hall & -> & Hfail & Htol & -> & ->).
        exists (i :: pre), ki, post. cbn [all_pass]. rewrite Hpass, Hall.
        rewrite inserted_tolerated in Htol.
        rewrite <- !app_assoc. simpl. repeat split; try done.
        by destruct before.
    + apply orb_false_iff in Hpass as [Hfail Htol].
      erewrite bind_Normal by (by apply insert_body_fatal).
      eexists _, _. split; [reflexivity|].
      exists [], i, rest. rewrite app_nil_r. by repeat split.
Qed.

(** X1.  [insert] always returns, whatever the store does (an assertion
    thrown by [unindex] during the clean-up is absorbed), and in one of
    two ways.  Either every key was inserted or passed over: the status
    is OK, the count is the number of keys the store accepted, at most
    the number of keys, the calls issued are one [insert] per key, and
    the multikey flag is set exactly when the count exceeds 1 (else
    left as it was).  Or the status is the one the store returned for
    some key [ki], which is not OK and not passed over: the count is 0,
    the flag is as before, and the calls are the [insert]s up to [ki]
    followed by an [unindex] of each earlier key. *)
Theorem insert_outcome (obj : BSONObj) (l : RecordId)
    (options : InsertDeleteOptions.t) (s : State) :
  let d := InsertDeleteOptions.dupsAllowed options in
  let keys := getKeys obj in
  exists st n s',
    insert obj l options s = Normal (st, n) s' /\
    ((all_pass keys l d s = true /\
      st = StatusOps.OK /\
      n = inserted_count keys l d s /\
      0 <= n <= size keys /\
      s' = (if 1 <? n then flagged (inserted keys l d s)
            else inserted keys l d s) /\
      multikey s' = (multikey s || (1 <? n)))
     \/
     (exists pre ki post,
        keys = pre ++ ki :: post /\
        all_pass pre l d s = true /\
        st = fst (sdi_insert (store (inserted pre l d s)) ki l d) /\
        StatusOps.isOK st = false /\
        tolerated st s = false /\
        n = 0 /\
        s' = unindexed pre l d (inserted (pre ++ [ki]) l d s) /\
        multikey s' = multikey s)).
Proof.
  intros d keys. unfold insert. fold d keys.
  destruct (insert_loop_outcome keys [] l d 0 s) as (r & s1 & Hrun & Hr).
  erewrite bind_Normal by exact Hrun.
  destruct r as [n|[st m]].
  - destruct Hr as (Hall & Hn & ->). simpl in Hn.
    exists StatusOps.OK, n.
    exists (if 1 <? n then flagged (inserted keys l d s)
            else inserted keys l d s).
    split.
    + unfold when, bind, setMultikey, modify, ret, flagged.
      by destruct (1 <? n).
    + left. repeat split; try done.
      * subst n. apply inserted_count_bounds.
      * subst n. apply inserted_count_bounds.
      * destruct (1 <? n); simpl; rewrite ?inserted_multikey;
          [by rewrite orb_true_r | by rewrite orb_false_r].
  - destruct Hr as (pre & ki & post & Hkeys & Hall & Hst & Hfail & Htol & Hs' & Hm).
    simpl in Hs', Hm. exists st, m, s1. split; [done|]. right.
    exists pre, ki, post. repeat split; try done.
    + subst m. by destruct pre.
    + subst s1. by rewrite unindexed_multikey, inserted_multikey.
Qed.

Lemma remove_loop_eq keys l d n s :
  remove_loop keys l d n s = Normal (n + size keys) (unindexed keys l d s).
Proof.
  revert n s. induction keys as [|k keys IH]; intros n s.
  - simpl. unfold ret, size. simpl. f_equal. lia.
  - rewrite unindexed_cons. cbn [remove_loop].
    erewrite bind_Normal by apply removeOneKey_eq.
    rewrite IH. f_equal. unfold size. cbn [length]. lia.
Qed.

(** X2.  [remove] never fails and never throws, on any store: whatever
    [unindex] does, assertions included, it returns OK with a count
    equal to the number of keys of the document, after exactly one
    [unindex] per key, in order; it leaves the multikey flag alone.  On
    a store whose [unindex] takes the entry out when it returns and
    never adds one, every key of the document whose [unindex] returned
    is out of the store for the record. *)
Theorem remove_always_succeeds (obj : BSONObj) (l : RecordId)
    (options : InsertDeleteOptions.t) (s : State) :
  let d := InsertDeleteOptions.dupsAllowed options in
  exists s',
    remove obj l options s = Normal (StatusOps.OK, size (getKeys obj)) s' /\
    s' = unindexed (getKeys obj) l d s /\
    history s' = history s ++ map (fun k => CallUnindex k l d) (getKeys obj) /\
    multikey s' = multikey s /\
    forall (UC : UnindexContract) p1 k p2,
      getKeys obj = p1 ++ k :: p2 ->
      snd (sdi_unindex (store (unindexed p1 l d s)) k l d) = false ->
      ~ holds (store s') k l.
Proof.
  intros d. exists (unindexed (getKeys obj) l d s).
  split; [|split; [done|split; [|split]]].
  - unfold remove. fold d. by erewrite bind_Normal by apply remove_loop_eq.
  - apply unindexed_history.
  - apply unindexed_multikey.
  - intros UC p1 k p2 Hkeys Hreturned. rewrite Hkeys.
    by apply unindexed_takes_out.
Qed.
End InsertOutcome.

(** ** Outcomes of update *)

Section UpdateOutcome.
Context `{Collaborators}.

Lemma unindexed_app keys1 keys2 l d s :
  unindexed (keys1 ++ keys2) l d s
    = unindexed keys2 l d (unindexed keys1 l d s).
Proof. apply fold_left_app. Qed.

Lemma call_unindex_eq k l d s :
  call_unindex k l d s =
    if snd (sdi_unindex (store s) k l d)
    then Raised AssertionException (unindexed [k] l d s)
    else Normal tt (unindexed [k] l d s).
Proof.
  unfold call_unindex, unindexed. simpl.
  destruct (sdi_unindex (store s) k l d) as [sto []]; reflexivity.
Qed.

Lemma update_unindex_run keys l d s :
  none_thrown keys l d s = true ->
  update_unindex keys l d s = Normal tt (unindexed keys l d s).
Proof.
  revert s. induction keys as [|k keys IH]; intros s; [done|].
  cbn [none_thrown update_unindex]. rewrite unindexed_cons.
  intros Hnone. apply andb_true_iff in Hnone as [Hk Hrest].
  apply negb_true_iff in Hk.
  unfold bind at 1. rewrite call_unindex_eq, Hk. cbv beta iota.
  by apply IH.
Qed.

Lemma update_unindex_throws pre r post l d s :
  none_thrown pre l d s = true ->
  snd (sdi_unindex (store (unindexed pre l d s)) r l d) = true ->
  update_unindex (pre ++ r :: post) l d s
    = Raised AssertionException (unindexed (pre ++ [r]) l d s).
Proof.
  revert s. induction pre as [|k pre IH]; intros s Hnone Hthrow.
  - simpl in Hthrow. cbn [app update_unindex]. unfold bind.
    by rewrite call_unindex_eq, Hthrow.
  - cbn [none_thrown] in Hnone. apply andb_true_iff in Hnone as [Hk Hrest].
    apply negb_true_iff in Hk.
    cbn [app update_unindex]. rewrite unindexed_cons in *.
    unfold bind at 1. rewrite call_unindex_eq, Hk. cbv beta iota.
  by apply IH.
Qed.

Lemma update_insert_run keys l d s :
  all_inserted keys l d s = true ->
  update_insert keys l d s = Normal (Next tt) (inserted keys l d s).
Proof.
  revert s. induction keys as [|k keys IH]; intros s; [done|].
  cbn [all_inserted update_insert]. rewrite inserted_cons.
  intros Hall. apply andb_true_iff in Hall as [Hk Hrest].
  erewrite bind_Normal by apply call_insert_eq. rewrite Hk. simpl.
  by apply IH.
Qed.

Lemma update_valid_start ticket data n s :
  _isValid ticket = true ->
  _indexSpecificUpdateData ticket = Some data ->
  update ticket n s = update_apply ticket data n (update_start data s).
Proof.
  intros Hvalid Hdata. unfold update, update_start. rewrite Hvalid, Hdata; simpl.
  unfold when. by destruct (multikey_test data).
Qed.

(** X3.  When a valid ticket is applied, no [unindex] throws and the
    store accepts every added key, [update] returns OK and sets
    [*numUpdated] to the number of added keys (not to the number of
    keys touched); the calls issued are [setMultikey] if the test
    holds, then one [unindex] per removed key, then one [insert] per
    added key, in the order of the ticket. *)
Theorem update_success (ticket : UpdateTicket)
    (data : BtreeBasedPrivateUpdateData) (numUpdated : Z) (s : State) :
  let l := loc data in
  let d := dupsAllowed data in
  let s0 := update_start data s in
  _isValid ticket = true ->
  _indexSpecificUpdateData ticket = Some data ->
  none_thrown (removed data) l d s0 = true ->
  all_inserted (added data) l d (unindexed (removed data) l d s0) = true ->
  exists s',
    update ticket numUpdated s
      = Normal (StatusOps.OK, size (added data), ticket) s' /\
    s' = inserted (added data) l d (unindexed (removed data) l d s0) /\
    history s' = history s
                   ++ (if multikey_test data then [CallSetMultikey] else [])
                   ++ map (fun k => CallUnindex k l d) (removed data)
                   ++ map (fun k => CallInsert k l d) (added data).
Proof.
  intros l d s0 Hvalid Hdata Hnone Hall.
  eexists. split; [|split; [reflexivity|]].
  - rewrite (update_valid_start _ _ _ _ Hvalid Hdata). unfold update_apply.
    fold l d s0.
    erewrite bind_Normal by (by apply update_unindex_run).
    by erewrite bind_Normal by (by apply update_insert_run).
  - rewrite inserted_history, unindexed_history. unfold s0, update_start.
    destruct (multikey_test data); simpl; by rewrite <- ?app_assoc.
Qed.

(** X4.  [update] calls [unindex] outside any handler: when the store
    throws an assertion on a removed key, the exception leaves [update]
    (where [remove] would have gone on), the removals before it stay
    applied, and no key has been inserted. *)
Theorem update_propagates_assertion (ticket : UpdateTicket)
    (data : BtreeBasedPrivateUpdateData) (numUpdated : Z) (s : State)
    (pre : list BSONObj) (r : BSONObj) (post : list BSONObj) :
  let l := loc data in
  let d := dupsAllowed data in
  let s0 := update_start data s in
  _isValid ticket = true ->
  _indexSpecificUpdateData ticket = Some data ->
  removed data = pre ++ r :: post ->
  none_thrown pre l d s0 = true ->
  snd (sdi_unindex (store (unindexed pre l d s0)) r l d) = true ->
  exists s',
    update ticket numUpdated s = Raised AssertionException s' /\
    s' = unindexed (pre ++ [r]) l d s0 /\
    history s' = history s0 ++ map (fun k => CallUnindex k l d) (pre ++ [r]).
Proof.
  intros l d s0 Hvalid Hdata Hrem Hnone Hthrow.
  eexists. split; [|split; [reflexivity|]].
  - rewrite (update_valid_start _ _ _ _ Hvalid Hdata). unfold update_apply.
    fold l d s0. rewrite Hrem.
    by erewrite bind_Raised by (by apply update_unindex_throws).
  - apply unindexed_history.
Qed.
End UpdateOutcome.

(** ** Planning an update *)

Section UpdatePlan.
Context `{Collaborators}.

Lemma setDifference_walk_sublist i j diff :
  exists d', setDifference_walk i j diff = diff ++ d' /\ d' `sublist_of` i.
Proof.
  revert j diff. induction i as [|x i IH]; intros j diff.
  - exists []. split; [by rewrite app_nil_r | constructor].
  - cbn [setDifference_walk].
    destruct (IH (advance x j)
                 (if match advance x j with
                     | [] => true
                     | y :: _ => negb (woCompare1 x y =? 0)
                     end then diff ++ [x] else diff)) as (d' & -> & Hsub).
    destruct (match advance x j with
              | [] => true
              | y :: _ => negb (woCompare1 x y =? 0)
              end).
    + exists (x :: d'). split; [by rewrite <- app_assoc | by constructor].
    + exists d'. split; [done | by constructor].
Qed.

Lemma setDifference_walk_nil_r i diff :
  setDifference_walk i [] diff = diff ++ i.
Proof.
  revert diff. induction i as [|x i IH]; intros diff; simpl.
  - by rewrite app_nil_r.
  - rewrite IH. by rewrite <- app_assoc.
Qed.

(** X5.  Whatever the comparison and the order of the sets, what
    [setDifference] appends to [diff] is a subsequence of [l]: it never
    makes up a key, repeats one or changes their order, it keeps what
    [diff] held, and it leaves the state alone.  When the ordering
    objects of the two sets differ it throws an assertion instead,
    before looking at any key. *)
Theorem setDifference_appends_subsequence (l r : BSONObjSet BSONObj)
    (diff : list BSONObj) (s : State) :
  if BSONObj_equal (order l) (order r)
  then exists d', setDifference l r diff s = Normal (diff ++ d') s
                  /\ d' `sublist_of` elems l
  else setDifference l r diff s = Raised AssertionException s.
Proof.
  unfold setDifference. destruct (BSONObj_equal (order l) (order r)); [|done].
  destruct (setDifference_walk_sublist (elems l) (elems r) diff)
    as (d' & Hwalk & Hsub).
  exists d'. by rewrite Hwalk.
Qed.

(** X6.  A document that had no key gets all its new keys added and
    none removed; a document that loses all its keys gets all its old
    keys removed and none added.  Neither needs anything of the
    comparison, since the walk never compares against an empty set. *)
Theorem validateUpdate_from_or_to_nothing (from to : BSONObj)
    (record : RecordId) (options : InsertDeleteOptions.t) (s : State) :
  BSONObj_equal BSONObj_empty BSONObj_empty = true ->
  getKeys from = [] \/ getKeys to = [] ->
  validateUpdate from to record options s =
    Normal (StatusOps.OK,
            mkTicket true
              (Some (mkUpdateData (mkBSONObjSet BSONObj_empty (getKeys from))
                                  (mkBSONObjSet BSONObj_empty (getKeys to))
                                  (getKeys from) (getKeys to) record
                                  (InsertDeleteOptions.dupsAllowed options))))
           s.
Proof.
  intros Hequal Hnone. unfold validateUpdate, setDifference, bind. simpl.
  rewrite Hequal. simpl.
  destruct Hnone as [-> | ->]; simpl; by rewrite setDifference_walk_nil_r.
Qed.

Section WithComparison.
Context {CC : ComparisonContract}.

Lemma filter_cons_eq (f : BSONObj -> bool) x l :
  List.filter f (x :: l) = if f x then x :: List.filter f l else List.filter f l.
Proof. done. Qed.

Lemma member_nil_filter (l : list BSONObj) :
  List.filter (fun y => member y []) l = [].
Proof. induction l as [|y l IH]; simpl; done. Qed.

Lemma filter_none (f : BSONObj -> bool) l :
  (forall x, In x l -> f x = false) -> List.filter f l = [].
Proof.
  induction l as [|x l IH]; intros Hnone; [done|].
  rewrite filter_cons_eq, (Hnone x) by by left.
  apply IH. intros y Hy. apply Hnone. by right.
Qed.

Lemma member_self x l : In x l -> member x l = true.
Proof.
  intros Hin. apply member_true. exists x. split; [done|].
  unfold order_equal. apply Z.eqb_eq, cmp_refl.
Qed.

Lemma member_cons_above x y l :
  woCompare1 y x < 0 -> member x (y :: l) = member x l.
Proof.
  intros Hlt. simpl. unfold order_equal at 1.
  destruct (woCompare1 x y =? 0) eqn:Heq; [|done].
  apply Z.eqb_eq in Heq. destruct (cmp_flip x y). lia.
Qed.

Lemma member_cons_below x y l :
  woCompare1 x y < 0 -> member x (y :: l) = member x l.
Proof.
  intros Hlt. simpl. unfold order_equal at 1.
  destruct (woCompare1 x y =? 0) eqn:Heq; [|done].
  apply Z.eqb_eq in Heq. lia.
Qed.

(** Two strictly increasing sequences have as many elements with a
    counterpart on the other side, one way as the other. *)
Lemma common_length l r :
  ordered l -> ordered r ->
  length (List.filter (fun x => member x r) l)
  = length (List.filter (fun y => member y l) r).
Proof.
  revert r. induction l as [|x l IHl]; intros r Hl Hr.
  - simpl. by rewrite member_nil_filter.
  - apply StronglySorted_inv in Hl as [Hl Hx].
    induction r as [|y r IHr].
    + simpl. by rewrite member_nil_filter.
    + apply StronglySorted_inv in Hr as [Hr Hy].
      rewrite Forall_forall in Hx, Hy.
      destruct (Z.lt_trichotomy (woCompare1 x y) 0) as [Hlt|[Heq|Hgt]].
      * (* x is below all of y :: r *)
        assert (Hxr : member x (y :: r) = false).
        { apply member_above. constructor; [done|].
          apply Forall_forall. intros z Hz. apply Hy in Hz.
          eapply cmp_lt_le_trans; [exact Hlt | lia]. }
        rewrite (filter_cons_eq _ x l), Hxr.
        rewrite (IHl (y :: r)) by (done || by constructor; [|apply Forall_forall]).
        f_equal. apply filter_ext_in. intros z Hz. symmetry.
        apply member_cons_above.
        destruct Hz as [<-|Hz]; [done|].
        apply list_elem_of_In, Hy in Hz.
        eapply cmp_lt_le_trans; [exact Hlt | lia].
      * (* x and y are order-equal *)
        assert (Hyx : woCompare1 y x = 0) by (destruct (cmp_flip x y); tauto).
        assert (Hxr : member x (y :: r) = true).
        { simpl. unfold order_equal at 1. by rewrite Heq. }
        assert (Hyl : member y (x :: l) = true).
        { simpl. unfold order_equal at 1. by rewrite Hyx. }
        rewrite (filter_cons_eq _ x l), (filter_cons_eq _ y r), Hxr, Hyl.
        cbn [length]. f_equal.
        transitivity (length (List.filter (fun z => member z r) l)).
        { f_equal. apply filter_ext_in. intros z Hz.
          apply member_cons_above.
          apply list_elem_of_In, Hx in Hz.
          eapply cmp_le_lt_trans; [|exact Hz]. lia. }
        rewrite (IHl r) by done.
        f_equal. apply filter_ext_in. intros z Hz. symmetry.
        apply member_cons_above.
        apply list_elem_of_In, Hy in Hz.
        eapply cmp_le_lt_trans; [|exact Hz]. lia.
      * (* y is below all of x :: l *)
        assert (Hyx : woCompare1 y x < 0) by (destruct (cmp_flip x y); lia).
        assert (Hyl : member y (x :: l) = false).
        { apply member_above. constructor; [done|].
          apply Forall_forall. intros z Hz. apply Hx in Hz.
          eapply cmp_lt_le_trans; [exact Hyx | lia]. }
        rewrite (filter_cons_eq _ y r), Hyl, <- (IHr Hr).
        f_equal. apply filter_ext_in. intros z Hz.
        apply member_cons_above.
        destruct Hz as [<-|Hz]; [done|].
        apply list_elem_of_In, Hx in Hz.
        eapply cmp_lt_le_trans; [exact Hyx | lia].
Qed.

Lemma delta_size l r :
  ordered l -> ordered r ->
  size l + size (List.filter (fun y => negb (member y l)) r)
  - size (List.filter (fun x => negb (member x r)) l)
  = size r.
Proof.
  intros Hl Hr. unfold size.
  pose proof (filter_length (fun x => member x r) l) as Hfl.
  pose proof (filter_length (fun y => member y l) r) as Hfr.
  pose proof (common_length l r Hl Hr) as Hcommon. lia.
Qed.

Lemma validateUpdate_eq from to record options s :
  ordered (getKeys from) -> ordered (getKeys to) ->
  validateUpdate from to record options s =
    Normal (StatusOps.OK,
            mkTicket true
              (Some (mkUpdateData
                       (mkBSONObjSet BSONObj_empty (getKeys from))
                       (mkBSONObjSet BSONObj_empty (getKeys to))
                       (List.filter (fun x => negb (member x (getKeys to)))
                                    (getKeys from))
                       (List.filter (fun y => negb (member y (getKeys from)))
                                    (getKeys to))
                       record (InsertDeleteOptions.dupsAllowed options))))
           s.
Proof.
  intros Hfrom Hto. unfold validateUpdate, setDifference, bind. simpl.
  rewrite BSONObj_equal_refl. simpl.
  by rewrite !setDifference_walk_filter.
Qed.

(** X7.  For two documents whose key sets iterate in increasing order,
    [validateUpdate] leaves the state alone and returns OK with a valid
    ticket for the record, in which
    [|oldKeys| + |added| - |removed| = |newKeys|].  So the test by
    which [update] sets the multikey flag holds exactly when the new
    version of the document has more than one key. *)
Theorem validateUpdate_plans_for_new_keys (from to : BSONObj)
    (record : RecordId) (options : InsertDeleteOptions.t) (s : State) :
  ordered (getKeys from) ->
  ordered (getKeys to) ->
  size (getKeys from) + size (getKeys to) < 2 ^ 64 ->
  exists ticket data,
    validateUpdate from to record options s = Normal (StatusOps.OK, ticket) s /\
    _isValid ticket = true /\
    _indexSpecificUpdateData ticket = Some data /\
    loc data = record /\
    dupsAllowed data = InsertDeleteOptions.dupsAllowed options /\
    elems (oldKeys data) = getKeys from /\
    elems (newKeys data) = getKeys to /\
    size (elems (oldKeys data)) + size (added data) - size (removed data)
      = size (getKeys to) /\
    multikey_test data = (1 <? size (getKeys to)).
Proof.
  intros Hfrom Hto Hfit.
  eexists _, _. split; [by apply validateUpdate_eq|]. simpl.
  pose proof (delta_size _ _ Hfrom Hto) as Hsize.
  repeat split; try done.
  unfold multikey_test. simpl. unfold size_t.
  pose proof (filter_length (fun y => member y (getKeys from)) (getKeys to)).
  unfold size in *.
  rewrite (Z.mod_small (_ + _)) by lia.
  rewrite Hsize. rewrite Z.mod_small by lia. done.
Qed.

(** X8.  Planning an update of a document to a version with the same
    keys and applying it calls neither [unindex] nor [insert]: the
    ticket has nothing removed and nothing added, [update] returns OK
    with [*numUpdated = 0], and the only call it may issue is
    [setMultikey], when the document has more than one key. *)
Theorem update_same_keys_touches_no_key (from to : BSONObj)
    (record : RecordId) (options : InsertDeleteOptions.t)
    (numUpdated : Z) (s : State) :
  getKeys to = getKeys from ->
  ordered (getKeys from) ->
  size (getKeys from) < 2 ^ 64 ->
  exists ticket s',
    validateUpdate from to record options s = Normal (StatusOps.OK, ticket) s /\
    update ticket numUpdated s = Normal (StatusOps.OK, 0, ticket) s' /\
    store s' = store s /\
    history s' = history s ++ (if 1 <? size (getKeys from)
                               then [CallSetMultikey] else []).
Proof.
  intros Hsame Hfrom Hfit.
  assert (Hnone : List.filter (fun x => negb (member x (getKeys from)))
                              (getKeys from) = []).
  { apply filter_none. intros x Hx. by rewrite member_self. }
  pose proof (validateUpdate_eq from to record options s Hfrom) as Hplan.
  rewrite Hsame in Hplan. specialize (Hplan Hfrom). rewrite Hnone in Hplan.
  set (data := mkUpdateData (mkBSONObjSet BSONObj_empty (getKeys from))
                            (mkBSONObjSet BSONObj_empty (getKeys from))
                            [] [] record
                            (InsertDeleteOptions.dupsAllowed options)) in *.
  assert (Htest : multikey_test data = (1 <? size (getKeys from))).
  { unfold multikey_test, size_t, size in *. simpl.
    rewrite Z.add_0_r, Z.sub_0_r, Z.mod_mod by lia.
    by rewrite Z.mod_small by lia. }
  exists (mkTicket true (Some data)).
  exists (update_start data s). split; [exact Hplan|].
  rewrite (update_valid_start (mkTicket true (Some data)) data _ _
             eq_refl eq_refl).
  unfold update_start. rewrite Htest.
  split; [done|].
  unfold when, setMultikey, modify, ret.
  destruct (1 <? size (getKeys from)); simpl; [done|].
  by rewrite app_nil_r.
Qed.
End WithComparison.
End UpdatePlan.

(** ** Outcomes of the bulk build *)

Section BulkOutcome.
Context `{Collaborators}.

Lemma added_keys_cons d stream s :
  added_keys (d :: stream) s =
    added_keys stream
      (with_store s (snd (builder_addKey (store s) (fst d) (snd d)))
                  (CallAddKey (fst d) (snd d))).
Proof. done. Qed.

Lemma added_keys_history stream s :
  history (added_keys stream s)
    = history s ++ map (fun d => CallAddKey (fst d) (snd d)) stream.
Proof.
  revert s. induction stream as [|d stream IH]; intros s.
  - simpl. by rewrite app_nil_r.
  - rewrite added_keys_cons, IH. simpl. by rewrite <- app_assoc.
Qed.

Lemma added_keys_multikey stream s :
  multikey (added_keys stream s) = multikey s.
Proof.
  revert s. induction stream as [|d stream IH]; intros s; [done|].
  by rewrite added_keys_cons, IH.
Qed.

Lemma commitBulk_body_ok d mi dups drop s :
  (mi = true -> killPending s = false) ->
  StatusOps.isOK (fst (builder_addKey (store s) (fst d) (snd d))) = true ->
  commitBulk_body d mi dups drop s = Normal (Next drop) (added_keys [d] s).
Proof.
  intros Hlive Hok. unfold commitBulk_body.
  assert (Hcheck : when mi checkForInterrupt s = Normal tt s).
  { destruct mi; [|done]. unfold when, checkForInterrupt. by rewrite Hlive. }
  erewrite bind_Normal by exact Hcheck.
  erewrite bind_Normal by apply call_addKey_eq.
  by rewrite Hok.
Qed.

Lemma commitBulk_loop_run stream mi dups drop s :
  (mi = true -> killPending s = false) ->
  all_added stream s = true ->
  commitBulk_loop stream mi dups drop s
    = Normal (Next drop) (added_keys stream s).
Proof.
  revert s. induction stream as [|d stream IH]; intros s Hlive Hall; [done|].
  cbn [all_added] in Hall. apply andb_true_iff in Hall as [Hd Hrest].
  cbn [commitBulk_loop]. rewrite added_keys_cons.
  erewrite bind_Normal by (by apply commitBulk_body_ok).
  by apply IH.
Qed.

(** The build from the datum the loop has reached. *)
Lemma commitBulk_resume bulk mi dups drop s pre rest drop' s' :
  sorter_done (_sorter bulk) = pre ++ rest ->
  commitBulk_loop pre mi dups drop (final (commitBulk_begin bulk dups s))
    = Normal (Next drop') s' ->
  commitBulk bulk mi dups drop s
    = bind (commitBulk_loop rest mi dups drop') (commitBulk_end mi) s'.
Proof.
  intros Hstream Hpre. unfold commitBulk.
  erewrite bind_Normal by apply commitBulk_begin_eq.
  rewrite Hstream. unfold bind.
  by rewrite commitBulk_loop_app, Hpre.
Qed.

Lemma commitBulk_begin_state bulk dups s :
  final (commitBulk_begin bulk dups s) =
    with_store (if _isMultiKey bulk then flagged s else s)
               (sdi_getBulkBuilder (store s) dups) (CallGetBulkBuilder dups).
Proof. unfold commitBulk_begin. by destruct (_isMultiKey bulk). Qed.

(** X9.  When no interruption is pending (or none is checked for) and
    the builder accepts every datum, [commitBulk] returns OK and hands
    the caller's set back untouched.  The calls it issues are
    [setMultikey] if some accumulated document had several keys, then
    [getBulkBuilder], then one [addKey] per datum in the order of the
    sorted stream, then [commit]; the multikey flag is set exactly when
    it was set before or the builder had seen such a document. *)
Theorem commitBulk_success (bulk : BulkBuilder) (mayInterrupt dups : bool)
    (dupsToDrop : option (gset RecordId)) (s : State) :
  let stream := sorter_done (_sorter bulk) in
  (mayInterrupt = true -> killPending s = false) ->
  all_added stream (final (commitBulk_begin bulk dups s)) = true ->
  exists s',
    commitBulk bulk mayInterrupt dups dupsToDrop s
      = Normal (StatusOps.OK, dupsToDrop) s' /\
    history s' = history s
                   ++ (if _isMultiKey bulk then [CallSetMultikey] else [])
                   ++ [CallGetBulkBuilder dups]
                   ++ map (fun d => CallAddKey (fst d) (snd d)) stream
                   ++ [CallBuilderCommit mayInterrupt] /\
    multikey s' = (multikey s || _isMultiKey bulk).
Proof.
  intros stream Hlive Hall. eexists. split; [|split].
  - unfold commitBulk. fold stream.
    erewrite bind_Normal by apply commitBulk_begin_eq.
    erewrite bind_Normal.
    2: { apply commitBulk_loop_run; [|exact Hall].
         rewrite commitBulk_begin_state. by destruct (_isMultiKey bulk). }
    reflexivity.
  - simpl. rewrite added_keys_history, commitBulk_begin_state.
    destruct (_isMultiKey bulk); simpl; by rewrite <- !app_assoc.
  - simpl. rewrite added_keys_multikey, commitBulk_begin_state.
    destruct (_isMultiKey bulk); simpl; [by rewrite orb_true_r|].
    by rewrite orb_false_r.
Qed.

(** X10.  With interruptions checked and one pending when the build
    starts: if the sorted stream has a datum, [commitBulk] throws the
    interruption before the first [addKey], the multikey flag and the
    builder already set up and nothing committed; if the stream is
    empty, the check is never reached and the build commits and returns
    OK. *)
Theorem commitBulk_interrupted (bulk : BulkBuilder) (dups : bool)
    (dupsToDrop : option (gset RecordId)) (s : State) :
  killPending s = true ->
  let s1 := final (commitBulk_begin bulk dups s) in
  match sorter_done (_sorter bulk) with
  | [] =>
      commitBulk bulk true dups dupsToDrop s
        = Normal (StatusOps.OK, dupsToDrop)
                 (with_store s1 (builder_commit (store s1) true)
                             (CallBuilderCommit true))
  | _ :: _ =>
      commitBulk bulk true dups dupsToDrop s = Raised InterruptedException s1
  end.
Proof.
  intros Hkill s1. unfold commitBulk.
  erewrite bind_Normal by apply commitBulk_begin_eq. fold s1.
  assert (Hkill1 : killPending s1 = true).
  { unfold s1. rewrite commitBulk_begin_state.
    by destruct (_isMultiKey bulk). }
  destruct (sorter_done (_sorter bulk)) as [|d rest]; [done|].
  assert (Hbody : commitBulk_body d true dups dupsToDrop s1
                  = Raised InterruptedException s1).
  { unfold commitBulk_body. apply bind_Raised.
    unfold when, checkForInterrupt. by rewrite Hkill1. }
  cbn [commitBulk_loop]. apply bind_Raised. by apply bind_Raised.
Qed.

Lemma commitBulk_body_unchecked d dups drop s e s' :
  commitBulk_body d false dups drop s = Raised e s' ->
  e = InvariantFailure /\ dups = true.
Proof.
  unfold commitBulk_body, when. rewrite bind_ret.
  erewrite bind_Normal by apply call_addKey_eq.
  destruct (negb (StatusOps.isOK _)); [|done].
  unfold bind at 1.
  destruct (is_code _ ErrorCodes.KeyTooLong); simpl.
  - destruct (negb _ || negb _); simpl; [done|].
    destruct (is_code _ ErrorCodes.DuplicateKey); [|done].
    destruct dups; simpl; [by intros [= <- _] | by destruct drop].
  - destruct (is_code _ ErrorCodes.DuplicateKey); [|done].
    destruct dups; simpl; [by intros [= <- _] | by destruct drop].
Qed.

Lemma commitBulk_loop_unchecked stream dups drop s e s' :
  commitBulk_loop stream false dups drop s = Raised e s' ->
  e = InvariantFailure /\ dups = true.
Proof.
  revert drop s. induction stream as [|d stream IH]; intros drop s; [done|].
  cbn [commitBulk_loop]. unfold bind.
  destruct (commitBulk_body d false dups drop s) as [[drop'|st] s1|e1 s1]
    eqn:Hbody.
  - apply IH.
  - done.
  - intros [= <- _]. by eapply commitBulk_body_unchecked.
Qed.

(** X11.  With [mayInterrupt] false the build never looks at a pending
    interruption: it returns, or it stops on the [invariant] that fails
    when a duplicate is reported while duplicates are allowed; it never
    throws an interruption, even with one pending. *)
Theorem commitBulk_unchecked_never_interrupted (bulk : BulkBuilder)
    (dups : bool) (dupsToDrop : option (gset RecordId)) (s : State) :
  (exists r s', commitBulk bulk false dups dupsToDrop s = Normal r s') \/
  (dups = true /\
   exists s', commitBulk bulk false dups dupsToDrop s
                = Raised InvariantFailure s').
Proof.
  unfold commitBulk.
  erewrite bind_Normal by apply commitBulk_begin_eq.
  unfold bind.
  destruct (commitBulk_loop _ false dups dupsToDrop _) as [r s1|e1 s1] eqn:Hloop.
  - left. destruct r as [drop|[st drop]]; by eexists _, _.
  - right. apply commitBulk_loop_unchecked in Hloop as [-> ->].
    split; [done|]. by eexists.
Qed.

(** X12.  When duplicates are allowed and [addKey] nevertheless reports
    DuplicateKey, the [invariant] fails and the build stops there,
    whether or not the caller gave a set: the record is not put in the
    set, no later datum is added and nothing is committed. *)
Theorem commitBulk_duplicate_while_allowed (bulk : BulkBuilder)
    (mayInterrupt : bool) (dupsToDrop : option (gset RecordId)) (s : State)
    (pre : list (BSONObj * RecordId)) (d : BSONObj * RecordId)
    (post : list (BSONObj * RecordId))
    (drop_d : option (gset RecordId)) (s_d : State) :
  sorter_done (_sorter bulk) = pre ++ d :: post ->
  commitBulk_loop pre mayInterrupt true dupsToDrop
                  (final (commitBulk_begin bulk true s))
    = Normal (Next drop_d) s_d ->
  (mayInterrupt = true -> killPending s_d = false) ->
  code (fst (builder_addKey (store s_d) (fst d) (snd d)))
    = ErrorCodes.DuplicateKey ->
  commitBulk bulk mayInterrupt true dupsToDrop s
    = Raised InvariantFailure (added_keys [d] s_d).
Proof.
  intros Hstream Hpre Hlive Hdup.
  rewrite (commitBulk_resume _ _ _ _ _ _ _ _ _ Hstream Hpre).
  cbn [commitBulk_loop]. unfold bind at 1 2.
  assert (Hbody : commitBulk_body d mayInterrupt true drop_d s_d
                  = Raised InvariantFailure (added_keys [d] s_d)).
  { unfold commitBulk_body.
    assert (Hcheck : when mayInterrupt checkForInterrupt s_d = Normal tt s_d).
    { destruct mayInterrupt; [|done]. unfold when, checkForInterrupt.
      by rewrite Hlive. }
    erewrite bind_Normal by exact Hcheck.
    erewrite bind_Normal by apply call_addKey_eq.
    unfold StatusOps.isOK, is_code. rewrite Hdup. by simpl. }
  by rewrite Hbody.
Qed.

(** X13.  When [addKey] reports KeyTooLong for a datum of the stream:
    if the process is not primary for the collection or
    [failIndexKeyTooLong] is off, the datum is skipped (it is not put
    in the caller's set either) and the build goes on with the next
    one; otherwise the build returns the KeyTooLong failure at once,
    without committing. *)
Theorem commitBulk_oversized_key (bulk : BulkBuilder)
    (mayInterrupt dups : bool) (dupsToDrop : option (gset RecordId))
    (s : State) (pre : list (BSONObj * RecordId)) (d : BSONObj * RecordId)
    (post : list (BSONObj * RecordId))
    (drop_d : option (gset RecordId)) (s_d : State) :
  sorter_done (_sorter bulk) = pre ++ d :: post ->
  commitBulk_loop pre mayInterrupt dups dupsToDrop
                  (final (commitBulk_begin bulk dups s))
    = Normal (Next drop_d) s_d ->
  (mayInterrupt = true -> killPending s_d = false) ->
  code (fst (builder_addKey (store s_d) (fst d) (snd d)))
    = ErrorCodes.KeyTooLong ->
  commitBulk bulk mayInterrupt dups dupsToDrop s =
    if negb (primary s_d) || negb (failIndexKeyTooLong s_d)
    then bind (commitBulk_loop post mayInterrupt dups drop_d)
              (commitBulk_end mayInterrupt) (added_keys [d] s_d)
    else Normal (fst (builder_addKey (store s_d) (fst d) (snd d)), drop_d)
                (added_keys [d] s_d).
Proof.
  intros Hstream Hpre Hlive Hlong.
  rewrite (commitBulk_resume _ _ _ _ _ _ _ _ _ Hstream Hpre).
  cbn [commitBulk_loop]. unfold bind.
  rewrite (commitBulk_body_KeyTooLong d mayInterrupt dups drop_d s_d Hlive Hlong).
  by destruct (negb (primary s_d) || negb (failIndexKeyTooLong s_d)).
Qed.

Lemma accumulate_eq docs options b s :
  accumulate docs options b s =
    Normal (mkBulkBuilder
              (_sorter b ++ pairs_of docs)
              (_isMultiKey b
               || existsb (fun doc => 1 <? size (getKeys (fst doc))) docs)
              (_keysInserted b + size (pairs_of docs)))
           s.
Proof.
  revert b. induction docs as [|doc docs IH]; intros b.
  - simpl. unfold ret, size. simpl.
    rewrite app_nil_r, orb_false_r, Z.add_0_r. by destruct b.
  - cbn [accumulate]. unfold bind, BulkBuilder_insert, ret.
    cbn [fst snd]. rewrite IH, bulk_add_eq. cbn [_sorter _isMultiKey _keysInserted].
    unfold pairs_of. cbn [flat_map existsb]. f_equal. f_equal.
    + by rewrite <- app_assoc.
    + by rewrite orb_assoc.
    + unfold size. rewrite length_app, length_map. lia.
Qed.

(** X14.  A scan followed by the build: after [BulkBuilder::insert] has
    been called on each document of a scan, starting from an empty
    builder, the sorter holds the (key, record) pair of every key of
    every document, in scan order, and [_keysInserted] is their number;
    and a build that accepts every datum sets the multikey flag exactly
    when it was set before or some document of the scan has more than
    one key. *)
Theorem bulk_scan_then_build (docs : list (BSONObj * RecordId))
    (options : InsertDeleteOptions.t) (mayInterrupt dups : bool)
    (dupsToDrop : option (gset RecordId)) (s : State) :
  let several := existsb (fun doc => 1 <? size (getKeys (fst doc))) docs in
  let bulk := mkBulkBuilder (pairs_of docs) several (size (pairs_of docs)) in
  accumulate docs options (mkBulkBuilder [] false 0) s = Normal bulk s /\
  ((mayInterrupt = true -> killPending s = false) ->
   all_added (sorter_done (pairs_of docs))
             (final (commitBulk_begin bulk dups s)) = true ->
   exists s',
     commitBulk bulk mayInterrupt dups dupsToDrop s
       = Normal (StatusOps.OK, dupsToDrop) s' /\
     multikey s' = (multikey s || several)).
Proof.
  intros several bulk. split; [apply accumulate_eq|].
  intros Hlive Hall. eexists. split.
  - unfold commitBulk. simpl.
    erewrite bind_Normal by apply commitBulk_begin_eq.
    erewrite bind_Normal.
    2: { apply commitBulk_loop_run; [|exact Hall].
         rewrite commitBulk_begin_state. simpl.
         by destruct several. }
    reflexivity.
  - simpl. rewrite added_keys_multikey, commitBulk_begin_state. simpl.
    destruct several; simpl; [by rewrite orb_true_r|].
    by rewrite orb_false_r.
Qed.
End BulkOutcome.

(** ** The sorter's comparison *)

Section ThreeWay.
Context {A : Type} (c : A -> A -> Z) (Hc : three_way c).

Lemma three_way_flip x y :
  (c y x < 0 <-> 0 < c x y) /\ (c y x = 0 <-> c x y = 0).
Proof.
  pose proof (three_way_sgn c Hc x y) as Hsgn.
  destruct (c x y), (c y x); simpl in Hsgn; split; split;
    intros; try done; lia.
Qed.

Lemma three_way_le_lt x y z : c x y <= 0 -> c y z < 0 -> c x z < 0.
Proof.
  intros Hxy Hyz.
  destruct (Z.lt_ge_cases (c x z) 0) as [|Hge]; [done|].
  assert (Hzx : c z x <= 0).
  { destruct (three_way_flip z x). destruct (Z.eq_dec (c z x) 0); lia. }
  pose proof (three_way_trans c Hc _ _ _ Hzx Hxy) as Hzy.
  destruct (three_way_flip z y). lia.
Qed.

Lemma three_way_lt_le x y z : c x y < 0 -> c y z <= 0 -> c x z < 0.
Proof.
  intros Hxy Hyz.
  destruct (Z.lt_ge_cases (c x z) 0) as [|Hge]; [done|].
  assert (Hzx : c z x <= 0).
  { destruct (three_way_flip z x). destruct (Z.eq_dec (c z x) 0); lia. }
  pose proof (three_way_trans c Hc _ _ _ Hyz Hzx) as Hyx.
  destruct (three_way_flip y x). lia.
Qed.

Lemma three_way_eq_eq x y z : c x y = 0 -> c y z = 0 -> c x z = 0.
Proof.
  intros Hxy Hyz.
  destruct (three_way_flip x y), (three_way_flip y z), (three_way_flip x z).
  assert (c x z <= 0) by (apply (three_way_trans c Hc x y z); lia).
  assert (c z x <= 0) by (apply (three_way_trans c Hc z y x); lia).
  destruct (Z.eq_dec (c x z) 0); lia.
Qed.
End ThreeWay.

Section SortComparisonFacts.
Context `{SortCollaborators}.

(** X15.  The comparison given to the sorter orders the data by key and
    breaks ties by record: a nonzero key comparison decides alone, and
    two data compare equal only when both their keys and their records
    do.  When the key comparison of the index version and the record
    comparison are three-way comparisons of total preorders, so is the
    comparison of the data, which is what a sort needs of it. *)
Theorem BtreeExternalSortComparison_orders (c : BtreeExternalSortComparison) :
  three_way (compare_keys c) ->
  three_way RecordId_compare ->
  three_way (BtreeExternalSortComparison_call c) /\
  (forall l r, compare_keys c (fst l) (fst r) <> 0 ->
               BtreeExternalSortComparison_call c l r
                 = compare_keys c (fst l) (fst r)) /\
  (forall l r, BtreeExternalSortComparison_call c l r = 0 <->
               compare_keys c (fst l) (fst r) = 0 /\
               RecordId_compare (snd l) (snd r) = 0).
Proof.
  intros Hk Hr.
  assert (Hcall : forall l r,
             BtreeExternalSortComparison_call c l r =
               if compare_keys c (fst l) (fst r) =? 0
               then RecordId_compare (snd l) (snd r)
               else compare_keys c (fst l) (fst r)).
  { intros l r. unfold BtreeExternalSortComparison_call.
    by destruct (compare_keys c (fst l) (fst r) =? 0). }
  split; [|split].
  - split.
    + intros x y. rewrite !Hcall.
      destruct (three_way_flip _ Hk (fst x) (fst y)) as [_ Heq].
      destruct (compare_keys c (fst x) (fst y) =? 0) eqn:E1,
               (compare_keys c (fst y) (fst x) =? 0) eqn:E2;
        rewrite ?Z.eqb_eq, ?Z.eqb_neq in *; try tauto.
      * apply (three_way_sgn _ Hr).
      * apply (three_way_sgn _ Hk).
    + intros x y z. rewrite !Hcall.
      destruct (compare_keys c (fst x) (fst y) =? 0) eqn:E1,
               (compare_keys c (fst y) (fst z) =? 0) eqn:E2;
        rewrite ?Z.eqb_eq, ?Z.eqb_neq in *; intros Hxy Hyz.
      * rewrite (three_way_eq_eq _ Hk _ _ _ E1 E2). simpl.
        by apply (three_way_trans _ Hr _ (snd y)).
      * assert (Hlt : compare_keys c (fst x) (fst z) < 0)
          by (apply (three_way_le_lt _ Hk _ (fst y)); lia).
        destruct (compare_keys c (fst x) (fst z) =? 0) eqn:E3;
          rewrite ?Z.eqb_eq, ?Z.eqb_neq in *; lia.
      * assert (Hlt : compare_keys c (fst x) (fst z) < 0)
          by (apply (three_way_lt_le _ Hk _ (fst y)); lia).
        destruct (compare_keys c (fst x) (fst z) =? 0) eqn:E3;
          rewrite ?Z.eqb_eq, ?Z.eqb_neq in *; lia.
      * assert (Hlt : compare_keys c (fst x) (fst z) < 0)
          by (apply (three_way_lt_le _ Hk _ (fst y)); lia).
        destruct (compare_keys c (fst x) (fst z) =? 0) eqn:E3;
          rewrite ?Z.eqb_eq, ?Z.eqb_neq in *; lia.
  - intros l r Hne. rewrite Hcall.
    by destruct (compare_keys c (fst l) (fst r) =? 0) eqn:E;
      rewrite ?Z.eqb_eq, ?Z.eqb_neq in *.
  - intros l r. rewrite Hcall.
    destruct (compare_keys c (fst l) (fst r) =? 0) eqn:E;
      rewrite ?Z.eqb_eq, ?Z.eqb_neq in *; tauto.
Qed.

End SortComparisonFacts.

(** ** Runs on the concrete store *)

Module Runs.
Import Concrete ConcreteFacts.
#[local] Existing Instance collaborators.
#[local] Existing Instance store_contract.

(** The scenarios of the specification: a document with two values
    gives two keys, a count of 2 and the multikey flag. *)
Example insert_two_values :
  exists s, insert [1; 2] 7 (options false) init = Normal (StatusOps.OK, 2) s
            /\ multikey s = true
            /\ entries (store s) = [([1], 7); ([2], 7)].
Proof. eexists. vm_compute. done. Qed.

(** ... and the second record with the same key is refused by a unique
    index, which keeps the first. *)
Example insert_duplicate_refused :
  exists s, insert [1] 8 (options false) (holding [([1], 7)] true)
              = Normal (status ErrorCodes.DuplicateKey, 0) s
            /\ entries (store s) = [([1], 7)].
Proof. eexists. vm_compute. done. Qed.

(** On a store holding keys 1 and 3: the key 3 is found with its record,
    the key 2 is not found although the cursor stands on the entry of 3. *)
Lemma findSingle_exact_witness :
  findSingle [3] (holding [([1], 7); ([3], 8)] true)
    = Normal 8 (holding [([1], 7); ([3], 8)] true)
  /\ findSingle [2] (holding [([1], 7); ([3], 8)] true)
    = Normal 0 (holding [([1], 7); ([3], 8)] true).
Proof.
  split.
  - destruct (findSingle_exact (H := collaborators) [3] (holding [([1], 7); ([3], 8)] true))
      as (r & Hrun & _ & _ & Heq & _).
    rewrite Hrun. f_equal. apply (Heq [3] 8); reflexivity.
  - destruct (findSingle_exact (H := collaborators) [2] (holding [([1], 7); ([3], 8)] true))
      as (r & Hrun & _ & Hne & _).
    rewrite Hrun. f_equal. apply (Hne [3] 8); [reflexivity | done].
Defined.

(** C3, as the specification has it, fails: the ticket planned for
    replacing the value 1 by 2 is applied with success and is valid
    afterwards. *)
Lemma update_does_not_consume_ticket :
  ~ (forall (ticket : UpdateTicket) (numUpdated : Z) (s : State) st n t s',
        update ticket numUpdated s = Normal (st, n, t) s' ->
        StatusOps.isOK st = true ->
        _isValid t = false).
Proof.
  intros Hclaim.
  specialize (Hclaim (planned [1] [2] 7) 0 (holding [([1], 7)] true)
                     StatusOps.OK 1 (planned [1] [2] 7)
                     (final (update (planned [1] [2] 7) 0
                                    (holding [([1], 7)] true)))).
  discriminate Hclaim; reflexivity.
Qed.

(** A fresh ticket is refused, and the planned ticket comes back as it
    was given. *)
Lemma update_reads_ticket_witness :
  update (mkTicket false None) 5 init
    = Normal (invalid_ticket_status, 5, mkTicket false None) init
  /\ forall st n t s',
       update (planned [1] [2] 7) 0 (holding [([1], 7)] true)
         = Normal (st, n, t) s' ->
       t = planned [1] [2] 7.
Proof.
  split.
  - apply (update_reads_ticket (H := collaborators) (mkTicket false None) 5 init).
    reflexivity.
  - apply (update_reads_ticket (H := collaborators) (planned [1] [2] 7) 0
             (holding [([1], 7)] true)).
Defined.

(** C7, on a secondary: [ignoreKeyTooLong] answers yes, [insert] skips
    the oversized key and reports success, and [update] returns the
    KeyTooLong failure of the same key without asking
    [ignoreKeyTooLong], the removal already applied. *)
Theorem update_propagates_KeyTooLong_on_secondary :
  let s := holding [([1], 7)] false in
  ignoreKeyTooLong s = Normal true s /\
  (exists s', insert [5000] 7 (options false) s = Normal (StatusOps.OK, 0) s'
              /\ entries (store s') = [([1], 7)]) /\
  (exists s', update (planned [1] [5000] 7) 0 s
                = Normal (status ErrorCodes.KeyTooLong, 0,
                          planned [1] [5000] 7) s'
              /\ entries (store s') = []).
Proof. repeat split; eexists; vm_compute; done. Qed.

(** C1, as the specification has it, fails: on a ready index that
    already holds the key 2 for the record, inserting the document with
    values 1 and 2 fails on the key 2, the key 1 is taken out again, and
    the store is left with one of the two keys of the document. *)
Lemma insert_failure_leaves_some_keys :
  ~ (forall (obj : Obj) (l : Z) (options : InsertDeleteOptions.t)
            (s : State) st n s',
        insert obj l options s = Normal (st, n) s' ->
        StatusOps.isOK st = false ->
        (exists k, k ∈ getKeys obj /\ (k, l) ∈ entries (store s')) ->
        forall k, k ∈ getKeys obj -> (k, l) ∈ entries (store s')).
Proof.
  intros Hclaim.
  specialize (Hclaim [1; 2] 7 (options false) (holding [([2], 7)] true)
                     (status ErrorCodes.DuplicateKeyValue) 0
                     (final (insert [1; 2] 7 (options false)
                                    (holding [([2], 7)] true)))
                     eq_refl eq_refl).
  assert (Hsome : exists k : Obj,
             k ∈ keysOf [1; 2] /\ (k, 7) ∈ [([2], 7)]).
  { exists [2]. split; apply list_elem_of_In; simpl; tauto. }
  assert (Hin : [1] ∈ keysOf [1; 2]) by (apply list_elem_of_In; simpl; tauto).
  apply (Hclaim Hsome) in Hin.
  change (([1], 7) ∈ [([2], 7)]) in Hin.
  apply list_elem_of_singleton in Hin. discriminate Hin.
Qed.

(** On a primary, the third key of the document is oversized: the two
    keys inserted before it are taken out again.  On the store that has
    seized up, the failure and the count are the same, the assertion of
    the clean-up is absorbed and the key stays. *)
Lemma insert_rolls_back_witness :
  (exists s',
     insert [1; 2; 5000] 7 (options false) init
       = Normal (status ErrorCodes.KeyTooLong, 0) s' /\
     ~ ([1], 7) ∈ entries (store s') /\ ~ ([2], 7) ∈ entries (store s')) /\
  (exists s',
     insert (H := seized) [1; 5000] 7 (options false) seized_init
       = Normal (status ErrorCodes.KeyTooLong, 0) s' /\
     entries (store s') = [([1], 7)]).
Proof.
  split.
  - destruct (insert_rolls_back (H := collaborators) [1; 2; 5000] 7
                (options false) init [[1]; [2]] [5000] [] 2
                (inserted (H := collaborators) [[1]; [2]] 7 false init))
      as (s' & Hrun & _ & _ & _ & Habsent); [reflexivity ..|].
    exists s'. split; [exact Hrun|]. split.
    + apply (Habsent unindex_contract [] [1] [[2]]); reflexivity.
    + apply (Habsent unindex_contract [[1]] [2] []); reflexivity.
  - destruct (insert_rolls_back (H := seized) [1; 5000] 7
                (options false) seized_init [[1]] [5000] [] 1
                (inserted (H := seized) [[1]] 7 false seized_init))
      as (s' & Hrun & -> & _); [reflexivity ..|].
    eexists. split; [exact Hrun | reflexivity].
Defined.

Ltac increasing := repeat (constructor; try (vm_compute; reflexivity)).

(** Old keys 1, 2, 3 and new keys 2, 3, 4, 5: 1 is removed, 4 and 5 are
    added. *)
Lemma setDifference_delta_witness :
  exists rmv adds,
    setDifference (mkBSONObjSet [] [[1]; [2]; [3]])
                  (mkBSONObjSet [] [[2]; [3]; [4]; [5]]) [] init
      = Normal rmv init /\
    setDifference (mkBSONObjSet [] [[2]; [3]; [4]; [5]])
                  (mkBSONObjSet [] [[1]; [2]; [3]]) [] init
      = Normal adds init /\
    rmv = [[1]] /\ adds = [[4]; [5]].
Proof.
  destruct (setDifference_delta (H := collaborators) (CC := comparison_contract)
              (mkBSONObjSet [] [[1]; [2]; [3]])
              (mkBSONObjSet [] [[2]; [3]; [4]; [5]]) init)
    as (rmv & adds & Hrmv & Hadds & -> & -> & _);
    [reflexivity | increasing | increasing |].
  eexists _, _. split; [exact Hrmv|]. split; [exact Hadds|].
  split; reflexivity.
Defined.

(** The key 1 is replaced by 2, 3 and an oversized key: the update fails
    at the third insertion, 1 stays removed, 2 and 3 stay inserted. *)
Lemma update_no_rollback_witness :
  exists s',
    update (planned [1] [2; 3; 5000] 7) 0 (holding [([1], 7)] true)
      = Normal (status ErrorCodes.KeyTooLong, 0, planned [1] [2; 3; 5000] 7)
               s' /\
    ~ ([1], 7) ∈ entries (store s') /\
    entries (store s') = [([2], 7); ([3], 7)].
Proof.
  pose (data := delta [[1]] [[2]; [3]; [5000]] [[1]] [[2]; [3]; [5000]] 7).
  pose (s0 := update_start (H := collaborators) data (holding [([1], 7)] true)).
  destruct (update_no_rollback (H := collaborators)
              (planned [1] [2; 3; 5000] 7) data 0 (holding [([1], 7)] true)
              (unindexed (H := collaborators) [[1]] 7 false s0)
              (inserted (H := collaborators) [[2]; [3]] 7 false
                 (unindexed (H := collaborators) [[1]] 7 false s0))
              [[2]; [3]] [5000] [])
    as (s' & Hrun & -> & _ & Habsent); [reflexivity ..|].
  eexists. split; [exact Hrun|]. split; [|reflexivity].
  apply (Habsent [1]).
  - apply list_elem_of_singleton. reflexivity.
  - intros Hin. apply list_elem_of_In in Hin. simpl in Hin.
    destruct Hin as [Heq|[Heq|[Heq|[]]]]; discriminate Heq.
Defined.

(** The same update starts with [setMultikey]. *)
Lemma update_sets_multikey_first_witness :
  exists calls,
    history (final (update (planned [1] [2; 3; 5000] 7) 0
                           (holding [([1], 7)] true)))
      = CallSetMultikey :: calls.
Proof.
  destruct (update_sets_multikey_first (H := collaborators)
              (planned [1] [2; 3; 5000] 7)
              (delta [[1]] [[2]; [3]; [5000]] [[1]] [[2]; [3]; [5000]] 7)
              0 (holding [([1], 7)] true))
    as (_ & (calls & Hcalls) & _); [reflexivity ..|].
  exists calls. exact Hcalls.
Defined.

(** Records 7 and 8 have the same key in a build without duplicates:
    with a set given, 8 ends in the set and the build completes without
    its entry. *)
Lemma commitBulk_duplicate_witness :
  exists st set' s',
    commitBulk (accumulated [([1], 8); ([2], 9); ([1], 7)] false) true false
               (Some ∅) init
      = Normal (st, Some set') s' /\
    8 ∈ set' /\
    entries (store s') = [([1], 7); ([2], 9)].
Proof.
  pose (bulk := accumulated [([1], 8); ([2], 9); ([1], 7)] false).
  pose (s_d := final (commitBulk_loop (H := collaborators) [([1], 7)] true false (Some ∅)
                        (final (commitBulk_begin bulk false init)))).
  destruct (commitBulk_duplicate (H := collaborators) bulk true (Some ∅) init
              [([1], 7)] ([1], 8) [([2], 9)] (Some ∅) s_d)
    as [_ Hheld]; [reflexivity ..|].
  assert (Hrun : commitBulk bulk true false (Some ∅) init
                 = Normal (StatusOps.OK, Some ({[8]} ∪ ∅))
                          (final (commitBulk bulk true false (Some ∅) init)))
    by reflexivity.
  destruct (Hheld _ _ _ Hrun) as (set' & Hset & Hin).
  exists StatusOps.OK, set', (final (commitBulk bulk true false (Some ∅) init)).
  split; [by rewrite <- Hset|]. split; [exact Hin | reflexivity].
Defined.

(** Without a set, the same build stops at the duplicate. *)
Example commitBulk_duplicate_without_set :
  exists s',
    commitBulk (accumulated [([1], 8); ([2], 9); ([1], 7)] false) true false
               None init
      = Normal (status ErrorCodes.DuplicateKey, None) s' /\
    history s' = [CallGetBulkBuilder false; CallAddKey [1] 7; CallAddKey [1] 8].
Proof. eexists. split; reflexivity. Qed.

(** After a document with two keys has set the flag, removing it and
    going on with single-key calls leaves the flag set. *)
Lemma multikey_monotone_witness :
  multikey
    (run_ops (H := collaborators) [@OpRemove collaborators [1; 2] 7 (options false);
              @OpInsert collaborators [3] 7 (options false);
              @OpUpdate collaborators (planned [3] [4] 7) 0;
              @OpCommitBulk collaborators (accumulated [([5], 9)] false) false false None]
             (run_op (H := collaborators) (@OpInsert collaborators [1; 2] 7 (options false)) init))
  = true.
Proof.
  apply (multikey_monotone (H := collaborators)
           [@OpRemove collaborators [1; 2] 7 (options false);
            @OpInsert collaborators [3] 7 (options false);
            @OpUpdate collaborators (planned [3] [4] 7) 0;
            @OpCommitBulk collaborators (accumulated [([5], 9)] false) false false None]
           (run_op (H := collaborators) (@OpInsert collaborators [1; 2] 7 (options false)) init)).
  reflexivity.
Defined.
(** *** Further runs *)

(** Removing a document with two keys from the asserting store, which
    holds the second key only: the assertion on the first key is
    absorbed, the count is 2 and the second key is taken out. *)
Lemma remove_always_succeeds_witness :
  exists s',
    remove (H := faulty) [1; 2] 7 (options false)
           (faulty_holding [([2], 7); ([3], 8)])
      = Normal (StatusOps.OK, 2) s' /\
    history s' = [@CallUnindex faulty [1] 7 false;
                  @CallUnindex faulty [2] 7 false] /\
    ~ ([2], 7) ∈ entries (store s').
Proof.
  destruct (remove_always_succeeds (H := faulty) [1; 2] 7
              (options false) (faulty_holding [([2], 7); ([3], 8)]))
    as (s' & Hrun & _ & Hhistory & _ & Habsent).
  exists s'. split; [exact Hrun|]. split; [exact Hhistory|].
  apply (Habsent faulty_unindex_contract [[1]] [2] []); reflexivity.
Defined.

(** The key 1 replaced by 2 and 3: one removal, two insertions, a count
    of 2. *)
Lemma update_success_witness :
  exists s',
    update (planned [1] [2; 3] 7) 0 (holding [([1], 7)] true)
      = Normal (StatusOps.OK, 2, planned [1] [2; 3] 7) s' /\
    history s' = [CallSetMultikey; CallUnindex [1] 7 false;
                  CallInsert [2] 7 false; CallInsert [3] 7 false].
Proof.
  destruct (update_success (H := collaborators) (planned [1] [2; 3] 7)
              (delta [[1]] [[2]; [3]] [[1]] [[2]; [3]] 7) 0
              (holding [([1], 7)] true))
    as (s' & Hrun & _ & Hhistory); [reflexivity ..|].
  exists s'. split; [exact Hrun | exact Hhistory].
Defined.

(** On the store that asserts, removing a key the index does not hold
    makes [update] throw before the new key is inserted. *)
Lemma update_propagates_assertion_witness :
  exists s',
    update (H := faulty)
           (@mkTicket faulty true
              (Some (@mkUpdateData faulty (mkBSONObjSet [] [[1]])
                                   (mkBSONObjSet [] [[2]]) [[1]] [[2]] 7 false)))
           0 faulty_init
      = Raised AssertionException s' /\
    history s' = [@CallUnindex faulty [1] 7 false].
Proof.
  destruct (update_propagates_assertion (H := faulty)
              (@mkTicket faulty true
                 (Some (@mkUpdateData faulty (mkBSONObjSet [] [[1]])
                                      (mkBSONObjSet [] [[2]]) [[1]] [[2]] 7 false)))
              (@mkUpdateData faulty (mkBSONObjSet [] [[1]])
                             (mkBSONObjSet [] [[2]]) [[1]] [[2]] 7 false)
              0 faulty_init [] [1] [])
    as (s' & Hrun & _ & Hhistory); [reflexivity ..|].
  exists s'. split; [exact Hrun | exact Hhistory].
Defined.

(** A document without keys gets the two keys of its new version. *)
Lemma validateUpdate_from_or_to_nothing_witness :
  validateUpdate [] [1; 2] 7 (options false) init
    = Normal (StatusOps.OK,
              mkTicket true (Some (delta [] [[1]; [2]] [] [[1]; [2]] 7)))
             init.
Proof.
  apply (validateUpdate_from_or_to_nothing (H := collaborators) [] [1; 2] 7
           (options false) init); [reflexivity | left; reflexivity].
Defined.

(** From keys 1, 2, 3 to keys 2, 3, 4, 5: the test of [update] holds,
    the new version having four keys. *)
Lemma validateUpdate_plans_for_new_keys_witness :
  exists ticket data,
    validateUpdate [1; 2; 3] [2; 3; 4; 5] 7 (options false) init
      = Normal (StatusOps.OK, ticket) init /\
    _indexSpecificUpdateData ticket = Some data /\
    multikey_test data = true.
Proof.
  destruct (validateUpdate_plans_for_new_keys (H := collaborators)
              (CC := comparison_contract) [1; 2; 3] [2; 3; 4; 5] 7
              (options false) init)
    as (ticket & data & Hrun & _ & Hdata & _ & _ & _ & _ & _ & Htest);
    [increasing | increasing | reflexivity |].
  exists ticket, data. split; [exact Hrun|]. split; [exact Hdata|].
  rewrite Htest. reflexivity.
Defined.

(** The values of the document swapped: same keys, no store call but
    [setMultikey]. *)
Lemma update_same_keys_touches_no_key_witness :
  exists ticket s',
    validateUpdate [1; 2] [2; 1] 7 (options false)
                   (holding [([1], 7); ([2], 7)] true)
      = Normal (StatusOps.OK, ticket) (holding [([1], 7); ([2], 7)] true) /\
    update ticket 0 (holding [([1], 7); ([2], 7)] true)
      = Normal (StatusOps.OK, 0, ticket) s' /\
    entries (store s') = [([1], 7); ([2], 7)] /\
    history s' = [CallSetMultikey].
Proof.
  destruct (update_same_keys_touches_no_key (H := collaborators)
              (CC := comparison_contract) [1; 2] [2; 1] 7 (options false) 0
              (holding [([1], 7); ([2], 7)] true))
    as (ticket & s' & Hplan & Hrun & Hstore & Hhistory);
    [reflexivity | increasing | reflexivity |].
  exists ticket, s'. split; [exact Hplan|]. split; [exact Hrun|].
  split; [by rewrite Hstore | exact Hhistory].
Defined.

(** A build of two records from a builder that saw a document with
    several keys. *)
Lemma commitBulk_success_witness :
  exists s',
    commitBulk (accumulated [([2], 9); ([1], 7)] true) true false None init
      = Normal (StatusOps.OK, None) s' /\
    history s' = [CallSetMultikey; CallGetBulkBuilder false;
                  CallAddKey [1] 7; CallAddKey [2] 9; CallBuilderCommit true] /\
    multikey s' = true.
Proof.
  destruct (commitBulk_success (H := collaborators)
              (accumulated [([2], 9); ([1], 7)] true) true false None init)
    as (s' & Hrun & Hhistory & Hflag); [reflexivity ..|].
  exists s'. split; [exact Hrun|]. split; [exact Hhistory | exact Hflag].
Defined.

(** An interruption pending: the build of one record throws before
    adding it, the empty build commits. *)
Lemma commitBulk_interrupted_witness :
  (exists s',
     commitBulk (accumulated [([1], 7)] false) true false None interrupted
       = Raised InterruptedException s' /\
     history s' = [CallGetBulkBuilder false]) /\
  (exists s',
     commitBulk (accumulated [] false) true false None interrupted
       = Normal (StatusOps.OK, None) s' /\
     history s' = [CallGetBulkBuilder false; CallBuilderCommit true]).
Proof.
  split; eexists; split.
  - exact (commitBulk_interrupted (H := collaborators)
             (accumulated [([1], 7)] false) false None interrupted eq_refl).
  - reflexivity.
  - exact (commitBulk_interrupted (H := collaborators)
             (accumulated [] false) false None interrupted eq_refl).
  - reflexivity.
Defined.

(** On the builder that reports duplicates although they are allowed,
    the second record with the key 1 stops the build. *)
Lemma commitBulk_duplicate_while_allowed_witness :
  exists s',
    commitBulk (H := faulty)
               (@mkBulkBuilder faulty [([1], 8); ([2], 9); ([1], 7)] false 3)
               false true (Some ∅) faulty_init
      = Raised InvariantFailure s' /\
    history s' = [@CallGetBulkBuilder faulty true; @CallAddKey faulty [1] 7;
                  @CallAddKey faulty [1] 8].
Proof.
  pose (bulk := @mkBulkBuilder faulty [([1], 8); ([2], 9); ([1], 7)] false 3).
  pose (s_d := final (commitBulk_loop (H := faulty) [([1], 7)] false true
                        (Some ∅)
                        (final (commitBulk_begin (H := faulty) bulk true
                                                 faulty_init)))).
  eexists. split.
  - apply (commitBulk_duplicate_while_allowed (H := faulty) bulk false (Some ∅)
             faulty_init [([1], 7)] ([1], 8) [([2], 9)] (Some ∅) s_d);
      [reflexivity | reflexivity | discriminate | reflexivity].
  - reflexivity.
Defined.

(** On a secondary, the oversized key is skipped by the build and the
    other record is indexed. *)
Lemma commitBulk_oversized_key_witness :
  exists s',
    commitBulk (accumulated [([5000], 7); ([1], 8)] false) true false None
               (holding [] false)
      = Normal (StatusOps.OK, None) s' /\
    entries (store s') = [([1], 8)].
Proof.
  set (bulk := accumulated [([5000], 7); ([1], 8)] false).
  pose (s_d := final (commitBulk_loop (H := collaborators) [([1], 8)] true
                        false None
                        (final (commitBulk_begin bulk false
                                                 (holding [] false))))).
  eexists. split.
  - rewrite (commitBulk_oversized_key (H := collaborators) bulk true false None
               (holding [] false) [([1], 8)] ([5000], 7) [] None s_d);
      reflexivity.
  - reflexivity.
Defined.

(** Two data with the same key and the same record compare equal, under
    either key format. *)
Lemma BtreeExternalSortComparison_orders_witness :
  BtreeExternalSortComparison_call (H0 := sort_collaborators)
    (mkComparison (H0 := sort_collaborators) [] 1) ([1], 7) ([1], 7) = 0.
Proof.
  destruct (BtreeExternalSortComparison_orders (H0 := sort_collaborators)
              (mkComparison (H0 := sort_collaborators) [] 1))
    as (_ & _ & Hzero).
  - apply compareObj_three_way.
  - apply compareZ_three_way.
  - apply (Hzero ([1], 7) ([1], 7)). split; reflexivity.
Defined.
(** A scan of a document with two values and one with a single value,
    then the build: three pairs reach the sorter and the flag is set. *)
Lemma bulk_scan_then_build_witness :
  accumulate [([1; 2], 7); ([3], 8)] (options false)
             (mkBulkBuilder [] false 0) init
    = Normal (mkBulkBuilder [([1], 7); ([2], 7); ([3], 8)] true 3) init /\
  exists s',
    commitBulk (mkBulkBuilder [([1], 7); ([2], 7); ([3], 8)] true 3)
               false false None init
      = Normal (StatusOps.OK, None) s' /\
    multikey s' = true.
Proof.
  destruct (bulk_scan_then_build (H := collaborators) [([1; 2], 7); ([3], 8)]
              (options false) false false None init) as [Hscan Hbuild].
  split; [exact Hscan|].
  destruct Hbuild as (s' & Hrun & Hflag); [discriminate | reflexivity |].
  exists s'. split; [exact Hrun | exact Hflag].
Defined.
End Runs.
